(** * dbdm: the DBClient facade and its WHERE-clause compiler

    A shallow embedding of [database.mjs] (class [DBClient]) and the
    properties of its predicate compiler [buildWhereClause] and of the
    data operations built on it.

    JavaScript values are a small tagged union, objects are the ordered
    list of their own enumerable properties (the order [Object.entries]
    walks), [async]/[await] is sequencing in a state-and-exception monad,
    and the sqlite driver and the uuid generator are an abstract
    [Driver] acting on a world [W]. *)

From Stdlib Require Import String Ascii List ZArith Bool Lia DecimalString.
From stdpp Require Import base option strings gmap.
Import ListNotations.

Local Open Scope string_scope.
Local Open Scope list_scope.

(** ** JavaScript values *)

#[local] Unset Elimination Schemes.
Inductive JSValue : Type :=
| JUndefined
| JNull
| JBool (b : bool)
| JNum (z : Z)
| JStr (s : string)
| JArr (elements : list JSValue)
| JObj (props : list (string * JSValue)).

#[local] Set Elimination Schemes.

(** An object as [Object.entries] enumerates it: its own properties in
    enumeration order (see [own_property_order] for how that order comes
    from the order of creation). *)
Definition JSObject : Type := list (string * JSValue).

Definition typeof (v : JSValue) : string :=
  match v with
  | JUndefined => "undefined"
  | JNull => "object"
  | JBool _ => "boolean"
  | JNum _ => "number"
  | JStr _ => "string"
  | JArr _ => "object"
  | JObj _ => "object"
  end.

Definition is_null (v : JSValue) : bool :=
  match v with JNull => true | _ => false end.

Definition Array_isArray (v : JSValue) : bool :=
  match v with JArr _ => true | _ => false end.

(** ToBoolean: what [!v], [v || w] and [if (v)] test. *)
Definition truthy (v : JSValue) : bool :=
  match v with
  | JUndefined | JNull => false
  | JBool b => b
  | JNum z => negb (Z.eqb z 0)
  | JStr s => negb (String.eqb s "")
  | JArr _ | JObj _ => true
  end.

Definition js_or (v w : JSValue) : JSValue := if truthy v then v else w.

Definition nat_to_string (n : nat) : string :=
  NilZero.string_of_uint (Nat.to_uint n).

(** A Number where the code only interpolates it into a template
    ([`${limit}`]): whatever the number is (an integer, a fraction, [NaN],
    [1e+21]), the code sees it only through the text [String(n)] gives,
    and that text is what the model keeps. *)
Record JSNumber : Type := mkNumber { number_text : string }.

Definition number_to_string (n : JSNumber) : string := number_text n.

(** ** The order of an object's own properties *)

Definition is_digit (c : ascii) : bool :=
  Nat.leb 48 (nat_of_ascii c) && Nat.leb (nat_of_ascii c) 57.

Fixpoint digits_value (s : string) (acc : N) : option N :=
  match s with
  | EmptyString => Some acc
  | String c s' =>
      if is_digit c
      then digits_value s' (10 * acc + (N.of_nat (nat_of_ascii c) - 48))%N
      else None
  end.

(** An array index: the canonical decimal text of an integer from 0 up
    to 2^32 - 2 (no sign, no leading zero). *)
Definition array_index (k : string) : option N :=
  match k with
  | EmptyString => None
  | String c rest =>
      if Ascii.eqb c "0" && negb (String.eqb rest "") then None
      else
        match digits_value k 0 with
        | Some n => if (n <? 4294967295)%N then Some n else None
        | None => None
        end
  end.

Definition is_array_index (k : string) : bool :=
  match array_index k with Some _ => true | None => false end.

Fixpoint insert_by_index {A : Type} (n : N) (e : A) (sorted : list (N * A))
  : list (N * A) :=
  match sorted with
  | [] => [(n, e)]
  | (m, e') :: rest =>
      if (n <=? m)%N then (n, e) :: sorted
      else (m, e') :: insert_by_index n e rest
  end.

Fixpoint indexed_entries {A : Type} (inserted : list (string * A))
  : list (N * (string * A)) :=
  match inserted with
  | [] => []
  | e :: rest =>
      match array_index (fst e) with
      | Some n => insert_by_index n e (indexed_entries rest)
      | None => indexed_entries rest
      end
  end.

Definition named_entries {A : Type} (inserted : list (string * A))
  : list (string * A) :=
  List.filter (fun e => negb (is_array_index (fst e))) inserted.

(** From the properties of an object in the order they were created
    (the order of an object literal) to the order [Object.entries],
    [Object.keys] and [Object.values] walk them: array-index keys first,
    by ascending index, then the other keys as created. *)
Definition own_property_order {A : Type} (inserted : list (string * A))
  : list (string * A) :=
  map snd (indexed_entries inserted) ++ named_entries inserted.

Fixpoint index_from {A : Type} (i : nat) (xs : list A) : list (string * A) :=
  match xs with
  | [] => []
  | x :: xs' => (nat_to_string i, x) :: index_from (S i) xs'
  end.

(** [Object.entries] on the values that pass the [typeof value === 'object'
    && value !== null] test: an object gives its properties, an array its
    elements keyed by their decimal index. *)
Definition Object_entries (v : JSValue) : list (string * JSValue) :=
  match v with
  | JObj props => props
  | JArr elements => index_from 0 elements
  | _ => []
  end.

(** The elements an array spreads ([...value]) or maps over. *)
Definition array_elements (v : JSValue) : list JSValue :=
  match v with
  | JArr elements => elements
  | _ => []
  end.

Definition Object_keys (o : JSObject) : list string := map fst o.
Definition Object_values (o : JSObject) : list JSValue := map snd o.

(** [o.k]: the first own property named [k], [undefined] when absent. *)
Fixpoint get_prop (o : JSObject) (k : string) : JSValue :=
  match o with
  | [] => JUndefined
  | (k', v) :: o' => if String.eqb k' k then v else get_prop o' k
  end.

(** [o.k = v]: overwrite in place, or add as the last property. *)
Fixpoint set_prop (o : JSObject) (k : string) (v : JSValue) : JSObject :=
  match o with
  | [] => [(k, v)]
  | (k', v') :: o' =>
      if String.eqb k' k then (k', v) :: o' else (k', v') :: set_prop o' k v
  end.

(** [xs.join(sep)] on strings. *)
Definition join (sep : string) (xs : list string) : string :=
  String.concat sep xs.

(** ** Exceptions *)

(** A thrown value: an [Error] instance with its [name] and [message], or
    anything else, kept as its [String(error)] rendering. *)
Inductive Thrown : Type :=
| ErrorObject (name message : string)
| NonError (text : string).

Definition DatabaseError (message : string) : Thrown :=
  ErrorObject "DatabaseError" message.

(** [error instanceof Error ? error.message : String(error)] *)
Definition error_message (error : Thrown) : string :=
  match error with
  | ErrorObject _ message => message
  | NonError text => text
  end.

Inductive Result (A : Type) : Type :=
| Ok (a : A)
| Throw (e : Thrown).
Arguments Ok {A} a.
Arguments Throw {A} e.

Definition result_map {A B : Type} (f : A -> B) (r : Result A) : Result B :=
  match r with Ok a => Ok (f a) | Throw e => Throw e end.

(** [xs.forEach(f)] where the callback may throw: the first exception
    leaves the loop. *)
Fixpoint forEach {A S : Type} (xs : list A) (f : A -> S -> Result S) (s : S)
  : Result S :=
  match xs with
  | [] => Ok s
  | x :: xs' =>
      match f x s with
      | Ok s' => forEach xs' f s'
      | Throw e => Throw e
      end
  end.

(** ** The predicate compiler *)

Module Compiler.

(** The two local arrays of [buildWhereClause]. *)
Record Acc : Type := mkAcc { conditions : list string; params : list JSValue }.

Definition push_condition (c : string) (a : Acc) : Acc :=
  mkAcc (conditions a ++ [c]) (params a).

Definition push_params (ps : list JSValue) (a : Acc) : Acc :=
  mkAcc (conditions a) (params a ++ ps).

(** The [switch (operator)] of the inner callback. *)
Definition operator_case (key operator : string) (operatorValue : JSValue)
  (a : Acc) : Result Acc :=
  if String.eqb operator "gt" then
    Ok (push_params [operatorValue] (push_condition (key +:+ " > ?") a))
  else if String.eqb operator "lt" then
    Ok (push_params [operatorValue] (push_condition (key +:+ " < ?") a))
  else if String.eqb operator "gte" then
    Ok (push_params [operatorValue] (push_condition (key +:+ " >= ?") a))
  else if String.eqb operator "lte" then
    Ok (push_params [operatorValue] (push_condition (key +:+ " <= ?") a))
  else if String.eqb operator "ne" then
    Ok (push_params [operatorValue] (push_condition (key +:+ " != ?") a))
  else
    Throw (DatabaseError ("Unknown operator: " +:+ operator)).

(** The outer callback, one condition entry. *)
Definition entry_case (entry : string * JSValue) (a : Acc) : Result Acc :=
  let '(key, value) := entry in
  if String.eqb (typeof value) "object" && negb (is_null value) then
    forEach (Object_entries value)
      (fun '(operator, operatorValue) => operator_case key operator operatorValue)
      a
  else if Array_isArray value then
    Ok (push_params (array_elements value)
          (push_condition
             (key +:+ " IN (" +:+
                join ", " (map (fun _ => "?") (array_elements value)) +:+ ")")
             a))
  else
    Ok (push_params [value] (push_condition (key +:+ " = ?") a)).

Record WhereClause : Type := mkWhere { clause : string; wparams : list JSValue }.

Definition collect (where_ : JSObject) : Result Acc :=
  forEach where_ entry_case (mkAcc [] []).

Definition finish (a : Acc) : WhereClause :=
  mkWhere
    (if Nat.ltb 0 (length (conditions a))
     then "WHERE " +:+ join " AND " (conditions a)
     else "")
    (params a).

Definition buildWhereClause (where_ : JSObject) : Result WhereClause :=
  result_map finish (collect where_).

(** The accumulator at the start of [buildWhereClause]. *)
Definition empty : Acc := mkAcc [] [].

(** What a run of callbacks adds to the two arrays it started from. *)
Definition acc_app (a b : Acc) : Acc :=
  mkAcc (conditions a ++ conditions b) (params a ++ params b).

(** A callback that only appends. *)
Definition appends {A : Type} (f : A -> Acc -> Result Acc) : Prop :=
  forall x a, f x a = result_map (acc_app a) (f x empty).

(** What one entry contributes on its own. *)
Definition fragments (entry : string * JSValue) : Result Acc :=
  entry_case entry empty.

End Compiler.

(** ** The storage driver and the client state *)

(** A connection handle returned by sqlite's [open]. *)
Definition Handle : Type := nat.

(** What [db.run] resolves to; only [changes] is read. *)
Record RunResult : Type := mkRun { changes : JSValue }.

(** The collaborators: the sqlite driver ([open], [run], [all], [get],
    [close]) and [uuid.v4], each acting on the outside world [W] and
    either resolving or rejecting. *)
Record Driver (W : Type) : Type := mkDriver {
  sqlite_open : string -> W -> Result Handle * W;
  db_run : Handle -> string -> list JSValue -> W -> Result RunResult * W;
  db_all : Handle -> string -> list JSValue -> W -> Result (list JSValue) * W;
  db_get : Handle -> string -> list JSValue -> W -> Result JSValue * W;
  db_close : Handle -> W -> Result unit * W;
  uuid_v4 : W -> string * W
}.
Arguments sqlite_open {W}.
Arguments db_run {W}.
Arguments db_all {W}.
Arguments db_get {W}.
Arguments db_close {W}.
Arguments uuid_v4 {W}.

(** A statement handed to the driver, as recorded in the trace. *)
Inductive Method : Type := MRun | MAll | MGet.

Record Stmt : Type := mkStmt {
  method : Method;
  sql : string;
  bound : list JSValue
}.

(** [QueryOptions] *)
Record QueryOptions : Type := mkOptions {
  where_ : option JSObject;
  limit : option JSNumber;
  offset : option JSNumber;
  orderBy : option string
}.

Definition no_options : QueryOptions := mkOptions None None None None.

(** A reference to a caller-owned object. *)
Definition Ref : Type := nat.

Section Client.

Context {W : Type}.
Variable drv : Driver W.

(** One [DBClient] instance together with everything it can reach:
    its [db] field ([None] is [null]), its config, the outside world,
    the objects callers pass by reference, and the trace of statements
    that reached the driver (oldest first). *)
Record State : Type := mkState {
  this_db : option Handle;
  config_database : string;
  world : W;
  heap : gmap Ref JSObject;
  issued : list Stmt
}.

Definition M (A : Type) : Type := State -> Result A * State.

Definition ret {A : Type} (a : A) : M A := fun s => (Ok a, s).

Definition throw {A : Type} (e : Thrown) : M A := fun s => (Throw e, s).

Definition bind {A B : Type} (m : M A) (k : A -> M B) : M B :=
  fun s =>
    match m s with
    | (Ok a, s') => k a s'
    | (Throw e, s') => (Throw e, s')
    end.

Definition try_catch {A : Type} (body : M A) (handler : Thrown -> M A) : M A :=
  fun s =>
    match body s with
    | (Ok a, s') => (Ok a, s')
    | (Throw e, s') => handler e s'
    end.

Definition lift {A : Type} (r : Result A) : M A := fun s => (r, s).

Local Notation "x <- m ;; k" := (bind m (fun x => k))
  (at level 100, m at next level, right associativity).
Local Notation "m ;;; k" := (bind m (fun _ => k))
  (at level 100, right associativity).

Definition set_world (w : W) (s : State) : State :=
  mkState (this_db s) (config_database s) w (heap s) (issued s).

Definition set_db (d : option Handle) (s : State) : State :=
  mkState d (config_database s) (world s) (heap s) (issued s).

Definition set_heap (h : gmap Ref JSObject) (s : State) : State :=
  mkState (this_db s) (config_database s) (world s) h (issued s).

Definition record (st : Stmt) (s : State) : State :=
  mkState (this_db s) (config_database s) (world s) (heap s) (issued s ++ [st]).

(** Calls into the driver. *)
Definition call_open (filename : string) : M Handle :=
  fun s => let '(r, w) := sqlite_open drv filename (world s) in (r, set_world w s).

Definition call_run (db : Handle) (query : string) (ps : list JSValue)
  : M RunResult :=
  fun s =>
    let '(r, w) := db_run drv db query ps (world s) in
    (r, set_world w (record (mkStmt MRun query ps) s)).

Definition call_all (db : Handle) (query : string) (ps : list JSValue)
  : M (list JSValue) :=
  fun s =>
    let '(r, w) := db_all drv db query ps (world s) in
    (r, set_world w (record (mkStmt MAll query ps) s)).

Definition call_get (db : Handle) (query : string) (ps : list JSValue)
  : M JSValue :=
  fun s =>
    let '(r, w) := db_get drv db query ps (world s) in
    (r, set_world w (record (mkStmt MGet query ps) s)).

Definition call_close (db : Handle) : M unit :=
  fun s => let '(r, w) := db_close drv db (world s) in (r, set_world w s).

Definition call_uuid : M string :=
  fun s => let '(u, w) := uuid_v4 drv (world s) in (Ok u, set_world w s).

(** Reading and writing a caller's object through its reference; a
    reference to nothing behaves as [undefined.id]. *)
Definition deref (l : Ref) : M JSObject :=
  fun s =>
    match heap s !! l with
    | Some o => (Ok o, s)
    | None =>
        (Throw (ErrorObject "TypeError"
                  "Cannot read properties of undefined (reading 'id')"), s)
    end.

Definition assign (l : Ref) (k : string) (v : JSValue) : M unit :=
  fun s =>
    match heap s !! l with
    | Some o => (Ok tt, set_heap (<[l := set_prop o k v]> (heap s)) s)
    | None =>
        (Throw (ErrorObject "TypeError"
                  "Cannot set properties of undefined (setting 'id')"), s)
    end.

(** ** The methods of [DBClient] *)

Definition not_connected : Thrown :=
  DatabaseError "Database not connected. Call connect() first.".

(** The [catch] block every method ends with. *)
Definition rethrow {A : Type} (prefix : string) (error : Thrown) : M A :=
  throw (DatabaseError (prefix +:+ error_message error)).

Definition connect_try : M JSValue :=
  fun s =>
    match call_open (config_database s) s with
    | (Ok h, s') => (Ok JUndefined, set_db (Some h) s')
    | (Throw e, s') => (Throw e, s')
    end.

Definition connect : M JSValue :=
  try_catch connect_try (rethrow "Failed to connect to database: ").

Definition ensureConnected : M Handle :=
  fun s =>
    match this_db s with
    | None => (Throw not_connected, s)
    | Some db => (Ok db, s)
    end.

Definition createTable_try (db : Handle) (table : string)
  (columns : list (string * string)) : M JSValue :=
  let columnDefinitions :=
    join ", " (map (fun '(key, type) => key +:+ " " +:+ type) columns) in
  call_run db
    ("CREATE TABLE IF NOT EXISTS " +:+ table +:+ " (" +:+
       columnDefinitions +:+ ")") [] ;;;
  ret (JArr []).

Definition createTable (table : string) (columns : list (string * string))
  : M JSValue :=
  db <- ensureConnected ;;
  try_catch (createTable_try db table columns)
    (rethrow "Failed to create table: ").

Definition buildWhereClause (where_ : JSObject) : M Compiler.WhereClause :=
  lift (Compiler.buildWhereClause where_).

Definition default_where (w : option JSObject) : JSObject :=
  match w with Some o => o | None => [] end.

Definition string_truthy (s : string) : bool := negb (String.eqb s "").

Definition with_orderBy (o : option string) (query : string) : string :=
  match o with
  | Some s => if string_truthy s then query +:+ " ORDER BY " +:+ s else query
  | None => query
  end.

Definition with_number (keyword : string) (n : option JSNumber)
  (query : string)
  : string :=
  match n with
  | Some z => query +:+ keyword +:+ number_to_string z
  | None => query
  end.

Definition find_try (db : Handle) (table : string) (options : QueryOptions)
  : M JSValue :=
  w <- buildWhereClause (default_where (where_ options)) ;;
  let query := "SELECT * FROM " +:+ table +:+ " " +:+ Compiler.clause w in
  let query := with_orderBy (orderBy options) query in
  let query := with_number " LIMIT " (limit options) query in
  let query := with_number " OFFSET " (offset options) query in
  rows <- call_all db query (Compiler.wparams w) ;;
  ret (JArr rows).

Definition find (table : string) (options : QueryOptions) : M JSValue :=
  db <- ensureConnected ;;
  try_catch (find_try db table options) (rethrow "Failed to find records: ").

Definition findOne_try (db : Handle) (table : string) (options : QueryOptions)
  : M JSValue :=
  w <- buildWhereClause (default_where (where_ options)) ;;
  let query := "SELECT * FROM " +:+ table +:+ " " +:+ Compiler.clause w in
  let query := with_orderBy (orderBy options) query in
  let query := query +:+ " LIMIT 1" in
  result <- call_get db query (Compiler.wparams w) ;;
  ret (js_or result JNull).

Definition findOne (table : string) (options : QueryOptions) : M JSValue :=
  db <- ensureConnected ;;
  try_catch (findOne_try db table options) (rethrow "Failed to find record: ").

Definition nl : string := String (ascii_of_nat 10) "".

Definition insert_query (table : string) (keys : list string) : string :=
  nl +:+ "            INSERT INTO " +:+ table +:+ " (" +:+ join ", " keys +:+ ")"
  +:+ nl +:+ "            VALUES (" +:+ join ", " (map (fun _ => "?") keys)
  +:+ ")" +:+ nl +:+ "        ".

Definition create_try (db : Handle) (table : string) (data : Ref) : M JSValue :=
  d <- deref data ;;
  (if negb (truthy (get_prop d "id"))
   then (u <- call_uuid ;; assign data "id" (JStr u))
   else ret tt) ;;;
  d <- deref data ;;
  let keys := Object_keys d in
  let values := Object_values d in
  call_run db (insert_query table keys) values ;;;
  d <- deref data ;;
  created <- findOne table
               (mkOptions (Some [("id", get_prop d "id")]) None None None) ;;
  if negb (truthy created)
  then throw (DatabaseError
                "Failed to create record: Record not found after insertion")
  else (d <- deref data ;; ret (get_prop d "id")).

Definition create (table : string) (data : Ref) : M JSValue :=
  db <- ensureConnected ;;
  try_catch (create_try db table data) (rethrow "Failed to create record: ").

Definition update_try (db : Handle) (table : string) (where_ data : JSObject)
  : M JSValue :=
  w <- buildWhereClause where_ ;;
  let setClause :=
    join ", " (map (fun key => key +:+ " = ?") (Object_keys data)) in
  let query :=
    "UPDATE " +:+ table +:+ " SET " +:+ setClause +:+ " " +:+
    Compiler.clause w in
  let allParams := Object_values data ++ Compiler.wparams w in
  result <- call_run db query allParams ;;
  ret (js_or (changes result) (JNum 0)).

Definition update (table : string) (where_ data : JSObject) : M JSValue :=
  db <- ensureConnected ;;
  try_catch (update_try db table where_ data)
    (rethrow "Failed to update records: ").

Definition delete_try (db : Handle) (table : string) (where_ : JSObject)
  : M JSValue :=
  w <- buildWhereClause where_ ;;
  (if negb (string_truthy (Compiler.clause w))
   then throw (DatabaseError "Delete operation requires where clause")
   else ret tt) ;;;
  let query := "DELETE FROM " +:+ table +:+ " " +:+ Compiler.clause w in
  result <- call_run db query (Compiler.wparams w) ;;
  ret (js_or (changes result) (JNum 0)).

Definition delete (table : string) (where_ : JSObject) : M JSValue :=
  db <- ensureConnected ;;
  try_catch (delete_try db table where_)
    (rethrow "Failed to delete records: ").

Definition close : M JSValue :=
  fun s =>
    match this_db s with
    | Some db =>
        match call_close db s with
        | (Ok _, s') => (Ok JUndefined, set_db None s')
        | (Throw e, s') => (Throw e, s')
        end
    | None => (Ok JUndefined, s)
    end.

(** ** Calls on one instance, in sequence *)

Inductive Call : Type :=
| CallConnect
| CallClose
| CallCreateTable (table : string) (columns : list (string * string))
| CallFind (table : string) (options : QueryOptions)
| CallFindOne (table : string) (options : QueryOptions)
| CallCreate (table : string) (data : Ref)
| CallUpdate (table : string) (where_ data : JSObject)
| CallDelete (table : string) (where_ : JSObject).

Definition invoke (c : Call) : M JSValue :=
  match c with
  | CallConnect => connect
  | CallClose => close
  | CallCreateTable table columns => createTable table columns
  | CallFind table options => find table options
  | CallFindOne table options => findOne table options
  | CallCreate table data => create table data
  | CallUpdate table where_ data => update table where_ data
  | CallDelete table where_ => delete table where_
  end.

Definition is_data_operation (c : Call) : bool :=
  match c with
  | CallConnect | CallClose => false
  | _ => true
  end.

Definition is_connect (c : Call) : bool :=
  match c with CallConnect => true | _ => false end.

(** Runs the calls one after the other, whatever each one's outcome, and
    keeps every outcome. *)
Fixpoint run_calls (cs : list Call) (s : State)
  : list (Call * Result JSValue) * State :=
  match cs with
  | [] => ([], s)
  | c :: cs' =>
      let '(r, s') := invoke c s in
      let '(rs, s'') := run_calls cs' s' in
      ((c, r) :: rs, s'')
  end.

(** The [try] block of each method that has one, and the prefix its
    [catch] block puts in front of the message. *)
Definition try_block (db : Handle) (c : Call) : M JSValue :=
  match c with
  | CallConnect => connect_try
  | CallClose => close
  | CallCreateTable table columns => createTable_try db table columns
  | CallFind table options => find_try db table options
  | CallFindOne table options => findOne_try db table options
  | CallCreate table data => create_try db table data
  | CallUpdate table where_ data => update_try db table where_ data
  | CallDelete table where_ => delete_try db table where_
  end.

(** The identifier step of [create] on the object [d]: the object and the
    world after it. *)
Definition resolve_id (d : JSObject) (w : W) : JSObject * W :=
  if truthy (get_prop d "id") then (d, w)
  else let '(u, w') := uuid_v4 drv w in (set_prop d "id" (JStr u), w').

End Client.

(** The condition mapping a call hands to [buildWhereClause]. *)
Definition condition_of (c : Call) : option JSObject :=
  match c with
  | CallFind _ options | CallFindOne _ options =>
      Some (default_where (where_ options))
  | CallUpdate _ w _ | CallDelete _ w => Some w
  | _ => None
  end.

Definition catch_prefix (c : Call) : string :=
  match c with
  | CallConnect => "Failed to connect to database: "
  | CallClose => ""
  | CallCreateTable _ _ => "Failed to create table: "
  | CallFind _ _ => "Failed to find records: "
  | CallFindOne _ _ => "Failed to find record: "
  | CallCreate _ _ => "Failed to create record: "
  | CallUpdate _ _ _ => "Failed to update records: "
  | CallDelete _ _ => "Failed to delete records: "
  end.

(** ** A stub driver, for running the model on concrete inputs *)

(** The world counts the identifiers handed out so far.  Every statement
    succeeds: [run] reports [run_changes], [get] resolves to [get_result],
    [all] to [all_result]. *)
Definition stub_driver (run_changes get_result : JSValue)
  (all_result : list JSValue) : Driver nat :=
  mkDriver nat
    (fun _ w => (Ok 1, w))
    (fun _ _ _ w => (Ok (mkRun run_changes), w))
    (fun _ _ _ w => (Ok all_result, w))
    (fun _ _ _ w => (Ok get_result, w))
    (fun _ w => (Ok tt, w))
    (fun w => ("uuid-" +:+ nat_to_string w, S w)).

Definition fresh_client (h : gmap Ref JSObject) : @State nat :=
  mkState None "test.sqlite" 0 h [].

Definition connected_client (h : gmap Ref JSObject) : @State nat :=
  mkState (Some 1) "test.sqlite" 0 h [].

(** A caller's object whose [id] is the number zero, at reference 0. *)
Definition zero_id_heap : gmap Ref JSObject :=
  {[ 0 := [("id", JNum 0); ("name", JStr "A")] ]}.

(** ** Counting placeholders *)

Definition qmark : ascii := "?"%char.

Fixpoint count_char (c : ascii) (s : string) : nat :=
  match s with
  | EmptyString => 0
  | String c' s' => (if Ascii.eqb c' c then 1 else 0) + count_char c s'
  end.

(** The number of [?] placeholders in a piece of SQL text. *)
Definition placeholders (s : string) : nat := count_char qmark s.

Definition total_placeholders (cs : list string) : nat :=
  list_sum (map placeholders cs).

(** ** Reading the claims *)

(** Values that are neither operator objects nor arrays. *)
Definition is_scalar (v : JSValue) : bool :=
  match v with
  | JArr _ | JObj _ => false
  | _ => true
  end.

(** The operator table as the documentation gives it. *)
Definition spec_symbol (operator : string) : option string :=
  if String.eqb operator "gt" then Some ">"
  else if String.eqb operator "lt" then Some "<"
  else if String.eqb operator "gte" then Some ">="
  else if String.eqb operator "lte" then Some "<="
  else if String.eqb operator "ne" then Some "!="
  else None.

Definition known_operator (operator : string) : bool :=
  match spec_symbol operator with Some _ => true | None => false end.

Definition spec_fragment (key : string) (o : string * JSValue) : string :=
  key +:+ " " +:+ match spec_symbol (fst o) with Some sym => sym | None => "" end
  +:+ " ?".

(** Two values of the same shape: both scalars, arrays of one length, or
    operator objects with the same operator keys in the same order. *)
Definition same_shape (v1 v2 : JSValue) : bool :=
  match v1, v2 with
  | JObj p1, JObj p2 =>
      bool_decide (map fst p1 = map fst p2)
  | JArr e1, JArr e2 => Nat.eqb (length e1) (length e2)
  | JObj _, _ | _, JObj _ | JArr _, _ | _, JArr _ => false
  | _, _ => true
  end.

Fixpoint same_shape_conditions (w1 w2 : JSObject) : bool :=
  match w1, w2 with
  | [], [] => true
  | (k1, v1) :: w1', (k2, v2) :: w2' =>
      String.eqb k1 k2 && same_shape v1 v2 && same_shape_conditions w1' w2'
  | _, _ => false
  end.

Definition clause_of (r : Result Compiler.WhereClause) : Result string :=
  result_map Compiler.clause r.

(** The fragments of one entry, each with the parameter that belongs to
    it, as the documentation describes them: [<column> = ?] with the
    value for a scalar, and for an operator mapping one
    [<column> <symbol> ?] with the operator's value per operator, in the
    mapping's order. *)
Definition entry_pairs (entry : string * JSValue) : list (string * JSValue) :=
  if is_scalar (snd entry)
  then [(fst entry +:+ " = ?", snd entry)]
  else map (fun o => (spec_fragment (fst entry) o, snd o))
         (Object_entries (snd entry)).

(** The clause text for a list of fragments. *)
Definition clause_text (fragments : list string) : string :=
  match fragments with
  | [] => ""
  | _ => "WHERE " +:+ join " AND " fragments
  end.

Definition no_array_index_keys {A : Type} (inserted : list (string * A)) : bool :=
  forallb (fun e => negb (is_array_index (fst e))) inserted.

Definition no_placeholder_in_keys (w : JSObject) : bool :=
  forallb (fun e => Nat.eqb (placeholders (fst e)) 0) w.

(** ** Further vocabulary *)

(** A table or column name that brings no placeholder into a statement. *)
Definition clean (name : string) : bool := Nat.eqb (placeholders name) 0.

(** A computation that leaves one view of the state as it found it,
    whether it returns or throws. *)
Definition preserves {W A X : Type} (view : @State W -> X) (m : @M W A) : Prop :=
  forall s, view (snd (m s)) = view s.

(** The optional tails of the query [find] builds. *)
Definition order_part (o : option string) : string :=
  match o with
  | Some s => if String.eqb s "" then "" else " ORDER BY " +:+ s
  | None => ""
  end.

Definition number_part (keyword : string) (n : option JSNumber) : string :=
  match n with
  | Some z => keyword +:+ number_to_string z
  | None => ""
  end.

(** What a property of a caller's object looks like from outside. *)
Definition field_at {W : Type} (l : Ref) (k : string) (s : @State W)
  : option JSValue :=
  match heap s !! l with
  | Some o => Some (get_prop o k)
  | None => None
  end.

(** A driver on which nothing works: every call rejects. *)
Definition broken_driver : Driver nat :=
  mkDriver nat
    (fun _ w => (Throw (ErrorObject "Error" "SQLITE_CANTOPEN: unable to open database file"), w))
    (fun _ _ _ w => (Throw (ErrorObject "Error" "SQLITE_CONSTRAINT: UNIQUE constraint failed: users.email"), w))
    (fun _ _ _ w => (Throw (ErrorObject "Error" "SQLITE_ERROR: no such table: users"), w))
    (fun _ _ _ w => (Throw (ErrorObject "Error" "SQLITE_ERROR: no such table: users"), w))
    (fun _ w => (Throw (ErrorObject "Error" "SQLITE_BUSY: unable to close"), w))
    (fun w => ("uuid-" +:+ nat_to_string w, S w)).

(** ** Facts about strings and loops *)

Lemma count_char_app (c : ascii) (s t : string) :
  count_char c (s +:+ t) = count_char c s + count_char c t.
Proof.
  induction s as [|c' s IH]; simpl; [reflexivity|].
  rewrite IH. lia.
Qed.

Lemma placeholders_app (s t : string) :
  placeholders (s +:+ t) = placeholders s + placeholders t.
Proof. apply count_char_app. Qed.

Lemma placeholders_join (sep : string) (cs : list string) :
  placeholders sep = 0 ->
  placeholders (join sep cs) = total_placeholders cs.
Proof.
  intros Hsep. unfold total_placeholders, join.
  induction cs as [|c cs IH]; [reflexivity|].
  destruct cs as [|c' cs].
  - simpl. lia.
  - change (String.concat sep (c :: c' :: cs))
      with (c +:+ sep +:+ String.concat sep (c' :: cs)).
    rewrite !placeholders_app, Hsep, IH. simpl. lia.
Qed.

Lemma total_placeholders_app (xs ys : list string) :
  total_placeholders (xs ++ ys) = total_placeholders xs + total_placeholders ys.
Proof.
  unfold total_placeholders. rewrite map_app, list_sum_app. reflexivity.
Qed.

Lemma total_placeholders_one (c : string) :
  total_placeholders [c] = placeholders c.
Proof. unfold total_placeholders. simpl. lia. Qed.

Lemma forEach_app {A S : Type} (f : A -> S -> Result S) (xs ys : list A) (s : S) :
  forEach (xs ++ ys) f s =
  match forEach xs f s with
  | Ok s' => forEach ys f s'
  | Throw e => Throw e
  end.
Proof.
  revert s. induction xs as [|x xs IH]; intros s; simpl; [reflexivity|].
  destruct (f x s); [apply IH | reflexivity].
Qed.

(** ** Facts about the compiler's accumulator *)

Module CompilerFacts.
Import Compiler.

Lemma acc_app_empty_r (a : Acc) : acc_app a empty = a.
Proof. destruct a; unfold acc_app; simpl. rewrite !app_nil_r. reflexivity. Qed.

Lemma acc_app_empty_l (a : Acc) : acc_app empty a = a.
Proof. destruct a; reflexivity. Qed.

Lemma acc_app_assoc (a b c : Acc) :
  acc_app (acc_app a b) c = acc_app a (acc_app b c).
Proof. unfold acc_app; simpl. rewrite <- !app_assoc. reflexivity. Qed.

Lemma forEach_appends {A : Type} (f : A -> Acc -> Result Acc) :
  appends f -> forall xs a,
  forEach xs f a = result_map (acc_app a) (forEach xs f empty).
Proof.
  intros Hf xs. induction xs as [|x xs IH]; intros a; simpl.
  - rewrite acc_app_empty_r. reflexivity.
  - rewrite (Hf x a). destruct (f x empty) as [b|e]; simpl; [|reflexivity].
    rewrite (IH (acc_app a b)), (IH b).
    destruct (forEach xs f empty) as [c|e]; simpl; [|reflexivity].
    rewrite acc_app_assoc. reflexivity.
Qed.

Lemma operator_case_appends (key : string) :
  appends (fun '(operator, operatorValue) =>
             operator_case key operator operatorValue).
Proof.
  intros [operator operatorValue] a. unfold operator_case.
  repeat (destruct (String.eqb operator _); [reflexivity|]).
  reflexivity.
Qed.

Lemma entry_case_appends : appends entry_case.
Proof.
  intros [key value] a. unfold entry_case.
  destruct (String.eqb (typeof value) "object" && negb (is_null value)).
  - apply forEach_appends, operator_case_appends.
  - destruct (Array_isArray value); reflexivity.
Qed.

Lemma forEach_entry_cons (entry : string * JSValue) (w : JSObject) (a : Acc) :
  forEach (entry :: w) entry_case a =
  match fragments entry with
  | Ok b => forEach w entry_case (acc_app a b)
  | Throw e => Throw e
  end.
Proof.
  simpl. rewrite (entry_case_appends entry a). unfold fragments.
  destruct (entry_case entry empty); reflexivity.
Qed.

(** An array or operator object takes the first branch of [entry_case]. *)
Lemma entry_case_object (key : string) (value : JSValue) (a : Acc) :
  is_scalar value = false ->
  entry_case (key, value) a =
  forEach (Object_entries value)
    (fun '(operator, operatorValue) => operator_case key operator operatorValue)
    a.
Proof. destruct value; simpl; intros H; try discriminate; reflexivity. Qed.

Lemma entry_case_scalar (key : string) (value : JSValue) (a : Acc) :
  is_scalar value = true ->
  entry_case (key, value) a =
  Ok (mkAcc (conditions a ++ [key +:+ " = ?"]) (params a ++ [value])).
Proof. destruct value; simpl; intros H; try discriminate; reflexivity. Qed.

Lemma operator_case_known (key operator : string) (v : JSValue) (a : Acc) :
  known_operator operator = true ->
  operator_case key operator v a =
  Ok (mkAcc (conditions a ++ [spec_fragment key (operator, v)])
            (params a ++ [v])).
Proof.
  unfold known_operator, spec_fragment, spec_symbol, operator_case. simpl.
  repeat (destruct (String.eqb operator _); [reflexivity|]).
  discriminate.
Qed.

Lemma operator_case_unknown (key operator : string) (v : JSValue) (a : Acc) :
  known_operator operator = false ->
  operator_case key operator v a =
  Throw (DatabaseError ("Unknown operator: " +:+ operator)).
Proof.
  unfold known_operator, spec_symbol, operator_case.
  repeat (destruct (String.eqb operator _); [discriminate|]).
  reflexivity.
Qed.

Lemma operators_known (key : string) (ops : list (string * JSValue)) (a : Acc) :
  forallb known_operator (map fst ops) = true ->
  forEach ops
    (fun '(operator, operatorValue) => operator_case key operator operatorValue)
    a =
  Ok (mkAcc (conditions a ++ map (spec_fragment key) ops)
            (params a ++ map snd ops)).
Proof.
  revert a. induction ops as [|[op v] ops IH]; intros a Hk; simpl in *.
  - rewrite !app_nil_r. destruct a; reflexivity.
  - apply andb_prop in Hk as [Hop Hrest].
    rewrite (operator_case_known key op v a Hop), (IH _ Hrest). simpl.
    rewrite <- !app_assoc. reflexivity.
Qed.

End CompilerFacts.

(** ** The compiler: arrays, operators, scalars *)

Module CompilerClaims.
Import Compiler CompilerFacts.

Lemma spec_fragment_placeholders (key operator : string) (v : JSValue) :
  placeholders key = 0 ->
  known_operator operator = true ->
  placeholders (spec_fragment key (operator, v)) = 1.
Proof.
  intros Hkey Hop. unfold spec_fragment, known_operator in *. simpl.
  rewrite placeholders_app, Hkey. unfold spec_symbol in *.
  repeat (destruct (String.eqb operator _); [reflexivity|]).
  discriminate.
Qed.

Lemma operators_balance (key : string) (ops : list (string * JSValue)) :
  placeholders key = 0 ->
  forall a b,
  forEach ops
    (fun '(operator, operatorValue) => operator_case key operator operatorValue)
    a = Ok b ->
  total_placeholders (conditions b) + length (params a) =
  length (params b) + total_placeholders (conditions a).
Proof.
  intros Hkey. induction ops as [|[op v] ops IH]; intros a b H; simpl in H.
  - injection H as <-. lia.
  - destruct (known_operator op) eqn:Hop.
    + rewrite (operator_case_known key op v a Hop) in H.
      apply IH in H. cbn [conditions params] in H.
      rewrite total_placeholders_app, total_placeholders_one, length_app in H.
      rewrite (spec_fragment_placeholders key op v Hkey Hop) in H.
      cbn [length] in H. lia.
    + rewrite (operator_case_unknown key op v a Hop) in H. discriminate.
Qed.

Lemma fragments_balance (entry : string * JSValue) (b : Acc) :
  placeholders (fst entry) = 0 ->
  fragments entry = Ok b ->
  total_placeholders (conditions b) = length (params b).
Proof.
  destruct entry as [key value]. cbn [fst]. intros Hkey H.
  unfold fragments in H.
  destruct (is_scalar value) eqn:Hs.
  - rewrite (entry_case_scalar key value empty Hs) in H. injection H as <-.
    cbn [conditions params app]. rewrite total_placeholders_one.
    rewrite placeholders_app, Hkey. reflexivity.
  - rewrite (entry_case_object key value empty Hs) in H.
    apply (operators_balance key _ Hkey) in H.
    change (total_placeholders (conditions empty)) with 0 in H.
    change (length (params empty)) with 0 in H. lia.
Qed.

(** Every successful run of the outer loop is the entries' own
    contributions, appended in the order of the entries. *)
Lemma forEach_entries_split (w : JSObject) :
  forall a b,
  forEach w entry_case a = Ok b ->
  exists per : list Acc,
    Forall2 (fun e c => fragments e = Ok c) w per /\
    conditions b = conditions a ++ concat (map conditions per) /\
    params b = params a ++ concat (map params per).
Proof.
  induction w as [|e w IH]; intros a b H.
  - simpl in H. injection H as <-. exists []. simpl.
    rewrite !app_nil_r. repeat split. constructor.
  - rewrite forEach_entry_cons in H.
    destruct (fragments e) as [c|err] eqn:Hc; [|discriminate].
    apply IH in H as (per & Hper & Hcs & Hps).
    exists (c :: per). simpl in *. repeat split.
    + constructor; assumption.
    + rewrite Hcs, <- app_assoc. reflexivity.
    + rewrite Hps, <- app_assoc. reflexivity.
Qed.

Lemma per_entry_balance (w : JSObject) (per : list Acc) :
  no_placeholder_in_keys w = true ->
  Forall2 (fun e c => fragments e = Ok c) w per ->
  total_placeholders (concat (map conditions per)) =
  length (concat (map params per)).
Proof.
  intros Hkeys Hper. induction Hper as [|e c w per Hc Hper IH]; [reflexivity|].
  simpl in *. apply andb_prop in Hkeys as [Hk Hrest].
  rewrite total_placeholders_app, length_app, (IH Hrest).
  apply Nat.eqb_eq in Hk.
  rewrite (fragments_balance e c Hk Hc). reflexivity.
Qed.

Lemma finish_placeholders (a : Acc) :
  total_placeholders (conditions a) = length (params a) ->
  placeholders (clause (finish a)) = length (wparams (finish a)).
Proof.
  intros H. unfold finish. simpl.
  destruct (conditions a) as [|c cs] eqn:Hc.
  - simpl. rewrite <- H. reflexivity.
  - cbn [length Nat.ltb Nat.leb]. rewrite placeholders_app.
    rewrite placeholders_join by reflexivity. rewrite H. reflexivity.
Qed.

(** C1 (as the code has it): an array is an object to [typeof], so it is
    walked as an operator mapping keyed by its indices.  A non-empty array
    makes compilation throw [Unknown operator: 0]; an empty one adds no
    fragment and no parameter.  The [IN] branch is never taken. *)
Theorem array_condition_is_read_as_operators :
  (forall key x xs a,
     entry_case (key, JArr (x :: xs)) a =
     Throw (DatabaseError "Unknown operator: 0")) /\
  (forall key a, entry_case (key, JArr []) a = Ok a) /\
  buildWhereClause [("id", JArr [JNum 1; JNum 2])] =
    Throw (DatabaseError "Unknown operator: 0") /\
  buildWhereClause [("id", JArr [])] = Ok (mkWhere "" []).
Proof.
  repeat split; reflexivity.
Qed.

(** Entries with scalar values only: one [col = ?] fragment per entry,
    joined with [" AND "] behind the [WHERE] keyword, with the values as
    parameters, in the order of the entries. *)
Lemma scalar_conditions_compile (w : JSObject) :
  forallb is_scalar (map snd w) = true ->
  buildWhereClause w =
    Ok (mkWhere
          (match w with
           | [] => ""
           | _ => "WHERE " +:+ join " AND " (map (fun e => fst e +:+ " = ?") w)
           end)
          (map snd w)) /\
  buildWhereClause [] = Ok (mkWhere "" []).
Proof.
  intros Hs. split; [|reflexivity].
  assert (Hloop : forall a,
    forEach w entry_case a =
    Ok (mkAcc (conditions a ++ map (fun e => fst e +:+ " = ?") w)
              (params a ++ map snd w))).
  { induction w as [|[key value] w IH]; intros a; simpl in *.
    - rewrite !app_nil_r. destruct a; reflexivity.
    - apply andb_prop in Hs as [Hv Hrest].
      pose proof (entry_case_scalar key value a Hv) as E. simpl in E.
      rewrite E, (IH Hrest). simpl. rewrite <- !app_assoc. reflexivity. }
  unfold buildWhereClause, collect. rewrite Hloop. simpl.
  unfold finish. simpl. destruct w; reflexivity.
Qed.

Lemma own_property_order_named {A : Type} (inserted : list (string * A)) :
  no_array_index_keys inserted = true ->
  own_property_order inserted = inserted.
Proof.
  unfold own_property_order, named_entries, no_array_index_keys.
  induction inserted as [|e rest IH]; intros H; [reflexivity|].
  cbn [forallb] in H. apply andb_prop in H as [He Hrest].
  specialize (IH Hrest). cbn [indexed_entries List.filter].
  rewrite He. unfold is_array_index in He.
  destruct (array_index (fst e)); [discriminate|].
  destruct (map snd (indexed_entries rest)) eqn:Hm.
  - simpl in *. rewrite IH. reflexivity.
  - exfalso. clear -Hrest Hm.
    induction rest as [|e' rest IH]; [discriminate|].
    cbn [forallb indexed_entries] in *. apply andb_prop in Hrest as [He' Hr].
    unfold is_array_index in He'.
    destruct (array_index (fst e')); [discriminate | exact (IH Hm Hr)].
Qed.

Lemma insert_by_index_In {A : Type} (n : N) (e x : A) (m : N)
  (sorted : list (N * A)) :
  In (m, x) (insert_by_index n e sorted) -> (m, x) = (n, e) \/ In (m, x) sorted.
Proof.
  induction sorted as [|[k y] sorted IH]; simpl.
  - intros [H|[]]. left. symmetry. exact H.
  - destruct (n <=? k)%N; simpl.
    + intros [H|H]; [left; symmetry; exact H | right; exact H].
    + intros [H|H]; [right; left; exact H|].
      destruct (IH H) as [H'|H']; [left; exact H' | right; right; exact H'].
Qed.

Lemma indexed_entries_In {A : Type} (inserted : list (string * A))
  (m : N) (x : string * A) :
  In (m, x) (indexed_entries inserted) -> In x inserted.
Proof.
  induction inserted as [|e rest IH]; simpl; [intros []|].
  destruct (array_index (fst e)) as [n|].
  - intros H. apply insert_by_index_In in H as [H|H].
    + injection H as _ ->. left. reflexivity.
    + right. exact (IH H).
  - intros H. right. exact (IH H).
Qed.

(** Enumeration only rearranges: every enumerated property was created. *)
Lemma own_property_order_In {A : Type} (inserted : list (string * A))
  (x : string * A) :
  In x (own_property_order inserted) -> In x inserted.
Proof.
  unfold own_property_order, named_entries. intros H.
  apply in_app_or in H as [H|H].
  - apply in_map_iff in H as ([m y] & <- & Hy).
    exact (indexed_entries_In inserted m y Hy).
  - apply filter_In in H as [H _]. exact H.
Qed.

Lemma own_property_order_forallb {A : Type} (P : string * A -> bool)
  (inserted : list (string * A)) :
  forallb P inserted = true -> forallb P (own_property_order inserted) = true.
Proof.
  rewrite !forallb_forall. intros H x Hx.
  exact (H x (own_property_order_In inserted x Hx)).
Qed.

Lemma forallb_through_map {A B : Type} (P : B -> bool) (f : A -> B)
  (l : list A) :
  forallb P (map f l) = forallb (fun x => P (f x)) l.
Proof.
  induction l as [|x l IH]; [reflexivity|]. simpl. rewrite IH. reflexivity.
Qed.

(** C5 fails as stated: keys that are array indices are enumerated
    first, by ascending index, wherever they were inserted, so the
    parameters of [{b: 1, '2': 2, a: 3, '1': 4}] are [4, 2, 1, 3]. *)
Lemma insertion_order_counterexample :
  let inserted :=
    [("b", JNum 1); ("2", JNum 2); ("a", JNum 3); ("1", JNum 4)] in
  buildWhereClause (own_property_order inserted) =
    Ok (mkWhere "WHERE 1 = ? AND 2 = ? AND b = ? AND a = ?"
          [JNum 4; JNum 2; JNum 1; JNum 3]) /\
  [JNum 4; JNum 2; JNum 1; JNum 3] <> map snd inserted.
Proof.
  split; [reflexivity | discriminate].
Qed.

(** C5 (amended): a condition mapping of scalar values only compiles to
    one [col = ?] fragment per key, joined with [" AND "] (behind the
    [WHERE] keyword), with the values as parameters, both in the order
    [Object.entries] enumerates the keys: array-index keys by ascending
    index first, then the other keys as inserted, which is the insertion
    order whenever no key is an array index.  The empty mapping compiles
    to the empty clause, without [WHERE], and no parameters. *)
Theorem scalar_conditions_in_enumeration_order
  (inserted : list (string * JSValue)) :
  forallb is_scalar (map snd inserted) = true ->
  let w := own_property_order inserted in
  buildWhereClause w =
    Ok (mkWhere
          (match w with
           | [] => ""
           | _ => "WHERE " +:+ join " AND " (map (fun e => fst e +:+ " = ?") w)
           end)
          (map snd w)) /\
  (no_array_index_keys inserted = true -> w = inserted) /\
  buildWhereClause (own_property_order []) = Ok (mkWhere "" []).
Proof.
  intros Hs w. split; [|split].
  - apply scalar_conditions_compile. rewrite forallb_through_map in *.
    apply own_property_order_forallb. exact Hs.
  - apply own_property_order_named.
  - reflexivity.
Qed.

Lemma scalar_conditions_in_enumeration_order_witness :
  let inserted := [("name", JStr "A"); ("7", JNum 30); ("nick", JNull)] in
  let w := own_property_order inserted in
  buildWhereClause w =
    Ok (mkWhere
          (match w with
           | [] => ""
           | _ => "WHERE " +:+ join " AND " (map (fun e => fst e +:+ " = ?") w)
           end)
          (map snd w)) /\
  (no_array_index_keys inserted = true -> w = inserted) /\
  buildWhereClause (own_property_order []) = Ok (mkWhere "" []).
Proof.
  intros inserted.
  apply (scalar_conditions_in_enumeration_order inserted). reflexivity.
Defined.

Lemma operators_all_known (key : string) (ops : list (string * JSValue)) :
  forall a b,
  forEach ops
    (fun '(operator, operatorValue) => operator_case key operator operatorValue)
    a = Ok b ->
  forallb known_operator (map fst ops) = true.
Proof.
  induction ops as [|[op v] ops IH]; intros a b H; [reflexivity|].
  cbn [forEach] in H. cbn [map fst forallb].
  destruct (known_operator op) eqn:Hop.
  - rewrite (operator_case_known key op v a Hop) in H.
    simpl. exact (IH _ _ H).
  - rewrite (operator_case_unknown key op v a Hop) in H. discriminate.
Qed.

(** A successful run of the outer loop adds, entry after entry, the
    entry's fragments and, at the same positions, their parameters. *)
Lemma forEach_entries_pairs (w : JSObject) :
  forall a b,
  forEach w entry_case a = Ok b ->
  conditions b = conditions a ++ map fst (flat_map entry_pairs w) /\
  params b = params a ++ map snd (flat_map entry_pairs w).
Proof.
  induction w as [|[key value] w IH]; intros a b H; cbn [forEach] in H.
  - injection H as <-. simpl. rewrite !app_nil_r. split; reflexivity.
  - destruct (entry_case (key, value) a) as [c|e] eqn:Hc; [|discriminate].
    destruct (IH c b H) as [Hcs Hps].
    cbn [flat_map]. rewrite !map_app, !app_assoc.
    unfold entry_pairs at 1 3. cbn [fst snd].
    destruct (is_scalar value) eqn:Hs.
    + rewrite (entry_case_scalar key value a Hs) in Hc. injection Hc as <-.
      simpl in *. split; assumption.
    + rewrite (entry_case_object key value a Hs) in Hc.
      pose proof (operators_all_known key _ _ _ Hc) as Hk.
      rewrite (operators_known key _ a Hk) in Hc. injection Hc as <-.
      cbn [conditions params] in *. rewrite !map_map. cbn [fst snd].
      split; assumption.
Qed.

(** C6 fails as stated, twice over.  A column name is copied into the
    clause as it is, so a [?] inside a key is one more placeholder in the
    text with no parameter behind it; and array-index keys are compiled
    first, by ascending index, wherever they were inserted. *)
Lemma placeholders_and_order_counterexample :
  ~ (forall (w : JSObject) (r : WhereClause),
       buildWhereClause w = Ok r ->
       placeholders (clause r) = length (wparams r)) /\
  (let inserted := [("b", JNum 1); ("1", JNum 4)] in
   buildWhereClause (own_property_order inserted) =
     Ok (mkWhere "WHERE 1 = ? AND b = ?" [JNum 4; JNum 1]) /\
   [JNum 4; JNum 1] <> map snd inserted).
Proof.
  split.
  - intros H.
    specialize (H [("a?", JNum 1)] (mkWhere "WHERE a? = ?" [JNum 1]) eq_refl).
    vm_compute in H. discriminate.
  - split; [reflexivity | discriminate].
Qed.

(** C6 (amended): on every condition mapping on which [buildWhereClause]
    succeeds, the fragments of the clause and the parameters are paired
    position by position: the k-th parameter is the value of the k-th
    fragment, entry after entry in the order [Object.entries] enumerates
    the mapping (array-index keys by ascending index first, then the
    other keys as inserted: the insertion order when no key is an array
    index) and, inside an operator entry, operator after operator.  When
    moreover no column name contains a [?], the clause text has as many
    [?] placeholders as there are parameters. *)
Theorem placeholders_match_params (inserted : list (string * JSValue))
  (r : WhereClause) :
  let w := own_property_order inserted in
  let pairs := flat_map entry_pairs w in
  buildWhereClause w = Ok r ->
  clause r = clause_text (map fst pairs) /\
  wparams r = map snd pairs /\
  (no_placeholder_in_keys w = true ->
   placeholders (clause r) = length (wparams r)) /\
  (no_array_index_keys inserted = true -> w = inserted).
Proof.
  intros w pairs H. unfold buildWhereClause, collect in H.
  destruct (forEach w entry_case (mkAcc [] [])) as [b|e] eqn:Hb; [|discriminate].
  injection H as <-.
  destruct (forEach_entries_pairs w _ _ Hb) as [Hcs Hps].
  cbn [conditions params app] in Hcs, Hps. fold pairs in Hcs, Hps.
  split; [|split; [|split]].
  - unfold finish, clause_text. cbn [clause]. rewrite Hcs.
    destruct (map fst pairs); reflexivity.
  - unfold finish. cbn [wparams]. exact Hps.
  - intros Hkeys. apply finish_placeholders.
    destruct (forEach_entries_split w _ _ Hb) as (per & Hper & Hcs' & Hps').
    cbn [conditions params app] in Hcs', Hps'. rewrite Hcs', Hps'.
    exact (per_entry_balance w per Hkeys Hper).
  - apply own_property_order_named.
Qed.

Lemma placeholders_match_params_witness :
  let inserted :=
    [("a", JNum 1); ("age", JObj [("gt", JNum 20); ("lte", JNum 65)])] in
  let r := mkWhere "WHERE a = ? AND age > ? AND age <= ?"
             [JNum 1; JNum 20; JNum 65] in
  let w := own_property_order inserted in
  let pairs := flat_map entry_pairs w in
  clause r = clause_text (map fst pairs) /\
  wparams r = map snd pairs /\
  (no_placeholder_in_keys w = true ->
   placeholders (clause r) = length (wparams r)) /\
  (no_array_index_keys inserted = true -> w = inserted).
Proof.
  intros inserted r.
  apply (placeholders_match_params inserted r). reflexivity.
Defined.

Lemma index_from_keys {A B : Type} (xs : list A) (ys : list B) :
  length xs = length ys ->
  forall i, map fst (index_from i xs) = map fst (index_from i ys).
Proof.
  revert ys. induction xs as [|x xs IH]; intros [|y ys] Hlen i;
    try discriminate; [reflexivity|].
  simpl. f_equal. apply IH. simpl in Hlen. lia.
Qed.

(** The operator loop's fragments, and whether it throws, depend on the
    operator keys only. *)
Lemma operators_conditions_by_keys (key : string)
  (ops1 ops2 : list (string * JSValue)) :
  map fst ops1 = map fst ops2 ->
  forall a1 a2, conditions a1 = conditions a2 ->
  result_map conditions
    (forEach ops1
       (fun '(operator, operatorValue) => operator_case key operator operatorValue)
       a1) =
  result_map conditions
    (forEach ops2
       (fun '(operator, operatorValue) => operator_case key operator operatorValue)
       a2).
Proof.
  revert ops2. induction ops1 as [|[op v1] ops1 IH]; intros [|[op2 v2] ops2] Hk a1 a2 Ha;
    try discriminate; simpl in *.
  - f_equal. exact Ha.
  - injection Hk as <- Hk.
    destruct (known_operator op) eqn:Hop.
    + rewrite (operator_case_known key op v1 a1 Hop).
      rewrite (operator_case_known key op v2 a2 Hop).
      apply (IH ops2 Hk). simpl. rewrite Ha. reflexivity.
    + rewrite (operator_case_unknown key op v1 a1 Hop).
      rewrite (operator_case_unknown key op v2 a2 Hop). reflexivity.
Qed.

Lemma entry_conditions_by_shape (key : string) (v1 v2 : JSValue) (a1 a2 : Acc) :
  same_shape v1 v2 = true ->
  conditions a1 = conditions a2 ->
  result_map conditions (entry_case (key, v1) a1) =
  result_map conditions (entry_case (key, v2) a2).
Proof.
  intros Hshape Ha.
  destruct (is_scalar v1) eqn:H1, (is_scalar v2) eqn:H2.
  - rewrite (entry_case_scalar key v1 a1 H1), (entry_case_scalar key v2 a2 H2).
    simpl. rewrite Ha. reflexivity.
  - destruct v1, v2; discriminate.
  - destruct v1, v2; discriminate.
  - rewrite (entry_case_object key v1 a1 H1), (entry_case_object key v2 a2 H2).
    apply operators_conditions_by_keys; [|exact Ha].
    destruct v1, v2; try discriminate; simpl in *.
    + apply index_from_keys. apply Nat.eqb_eq. exact Hshape.
    + apply bool_decide_eq_true in Hshape. exact Hshape.
Qed.

Lemma collect_conditions_by_shape (w1 w2 : JSObject) :
  same_shape_conditions w1 w2 = true ->
  forall a1 a2, conditions a1 = conditions a2 ->
  result_map conditions (forEach w1 entry_case a1) =
  result_map conditions (forEach w2 entry_case a2).
Proof.
  revert w2. induction w1 as [|[k1 v1] w1 IH]; intros [|[k2 v2] w2] Hs a1 a2 Ha;
    try discriminate; simpl in Hs.
  - simpl. f_equal. exact Ha.
  - apply andb_prop in Hs as [Hs Hrest]. apply andb_prop in Hs as [Hk Hv].
    apply String.eqb_eq in Hk. subst k2.
    pose proof (entry_conditions_by_shape k1 v1 v2 a1 a2 Hv Ha) as E.
    cbn [forEach].
    destruct (entry_case (k1, v1) a1) as [b1|e1],
             (entry_case (k1, v2) a2) as [b2|e2];
      simpl in E; try discriminate.
    + injection E as E. apply (IH w2 Hrest). exact E.
    + exact E.
Qed.

(** C9: the clause text does not depend on the condition values: two
    condition mappings with the same keys, the same operator keys and the
    same array lengths compile to the same clause text, or both fail with
    the same error. *)
Theorem clause_text_independent_of_values (w1 w2 : JSObject) :
  same_shape_conditions w1 w2 = true ->
  clause_of (buildWhereClause w1) = clause_of (buildWhereClause w2).
Proof.
  intros Hs. unfold clause_of, buildWhereClause, collect.
  pose proof (collect_conditions_by_shape w1 w2 Hs (mkAcc [] []) (mkAcc [] [])
                eq_refl) as E.
  destruct (forEach w1 entry_case (mkAcc [] [])) as [b1|e1],
           (forEach w2 entry_case (mkAcc [] [])) as [b2|e2];
    simpl in *; try discriminate.
  - injection E as E. unfold finish. simpl. rewrite E. reflexivity.
  - injection E as E. rewrite E. reflexivity.
Qed.

Lemma clause_text_independent_of_values_witness :
  clause_of
    (buildWhereClause
       [("name", JStr "A"); ("age", JObj [("gt", JNum 20)]); ("tags", JArr [])]) =
  clause_of
    (buildWhereClause
       [("name", JStr "x' OR 1=1 --"); ("age", JObj [("gt", JStr "?")]);
        ("tags", JArr [])]).
Proof.
  apply clause_text_independent_of_values. reflexivity.
Defined.

End CompilerClaims.

(** ** The facade: connection state *)

Section FacadeFacts.

Context {W : Type}.
Variable drv : Driver W.

Lemma data_operation_not_connected (c : Call) (s : State) :
  is_data_operation c = true ->
  this_db s = None ->
  invoke drv c s = (Throw not_connected, s).
Proof.
  intros Hc Hdb.
  destruct c; try discriminate; simpl;
    unfold createTable, find, findOne, create, update, delete, bind,
      ensureConnected; rewrite Hdb; reflexivity.
Qed.

Lemma close_ok_disconnects (s s1 : State) (v : JSValue) :
  close drv s = (Ok v, s1) -> this_db s1 = None.
Proof.
  unfold close. destruct (this_db s) as [db|] eqn:Hdb.
  - unfold call_close. destruct (db_close drv db (world s)) as [[u|e] w];
      intros H; [|discriminate].
    injection H as _ <-. reflexivity.
  - intros H. injection H as _ <-. exact Hdb.
Qed.

Lemma close_when_disconnected (s : State) :
  this_db s = None -> close drv s = (Ok JUndefined, s).
Proof. intros Hdb. unfold close. rewrite Hdb. reflexivity. Qed.

Lemma stays_disconnected (c : Call) (s : State) :
  is_connect c = false ->
  this_db s = None ->
  this_db (snd (invoke drv c s)) = None.
Proof.
  intros Hc Hdb. destruct c; try discriminate.
  - simpl. rewrite (close_when_disconnected s Hdb). exact Hdb.
  - rewrite data_operation_not_connected by (reflexivity || exact Hdb). exact Hdb.
  - rewrite data_operation_not_connected by (reflexivity || exact Hdb). exact Hdb.
  - rewrite data_operation_not_connected by (reflexivity || exact Hdb). exact Hdb.
  - rewrite data_operation_not_connected by (reflexivity || exact Hdb). exact Hdb.
  - rewrite data_operation_not_connected by (reflexivity || exact Hdb). exact Hdb.
  - rewrite data_operation_not_connected by (reflexivity || exact Hdb). exact Hdb.
Qed.

Lemma run_calls_disconnected (calls : list Call) :
  forallb (fun c => negb (is_connect c)) calls = true ->
  forall s : State, this_db s = None ->
  this_db (snd (run_calls drv calls s)) = None /\
  (forall c r, In (c, r) (fst (run_calls drv calls s)) ->
     is_data_operation c = true -> r = Throw not_connected).
Proof.
  induction calls as [|c calls IH]; intros Hcalls s Hdb; simpl in *.
  - split; [exact Hdb | intros c r []].
  - apply andb_prop in Hcalls as [Hc Hrest]. apply negb_true_iff in Hc.
    pose proof (stays_disconnected c s Hc Hdb) as Hnext.
    destruct (invoke drv c s) as [r s'] eqn:Hinv. simpl in Hnext.
    destruct (IH Hrest s' Hnext) as [Hend Hall].
    destruct (run_calls drv calls s') as [rs s''] eqn:Hrun. simpl in *.
    split; [exact Hend|].
    intros c0 r0 [Heq | Hin] Hop.
    + injection Heq as <- <-.
      rewrite (data_operation_not_connected c s Hop Hdb) in Hinv.
      injection Hinv as <- _. reflexivity.
    + exact (Hall c0 r0 Hin Hop).
Qed.

Lemma connect_opens (s : State) (h : Handle) (w' : W) :
  sqlite_open drv (config_database s) (world s) = (Ok h, w') ->
  connect drv s = (Ok JUndefined, set_db (Some h) (set_world w' s)).
Proof.
  intros Hopen. unfold connect, connect_try, try_catch, call_open.
  rewrite Hopen.
  reflexivity.
Qed.

(** C3 (amended): once [close()] has returned on a connected instance,
    the instance stays disconnected through every sequence of calls that
    does not contain [connect()], and each data operation in it fails with
    the not-connected error; a later [connect()] whose [open] succeeds
    makes the same instance connected again. *)
Theorem closed_until_reconnect (s s1 : State) (db : Handle) (calls : list Call) :
  this_db s = Some db ->
  close drv s = (Ok JUndefined, s1) ->
  forallb (fun c => negb (is_connect c)) calls = true ->
  let s2 := snd (run_calls drv calls s1) in
  this_db s2 = None /\
  (forall c r, In (c, r) (fst (run_calls drv calls s1)) ->
     is_data_operation c = true -> r = Throw not_connected) /\
  (forall h w',
     sqlite_open drv (config_database s2) (world s2) = (Ok h, w') ->
     fst (connect drv s2) = Ok JUndefined /\
     this_db (snd (connect drv s2)) = Some h).
Proof.
  intros _ Hclose Hcalls s2.
  pose proof (close_ok_disconnects s s1 JUndefined Hclose) as Hdb.
  destruct (run_calls_disconnected calls Hcalls s1 Hdb) as [Hend Hall].
  split; [exact Hend|]. split; [exact Hall|].
  intros h w' Hopen. rewrite (connect_opens s2 h w' Hopen). split; reflexivity.
Qed.

End FacadeFacts.

(** ** The facade: data operations *)

Section Operations.

Context {W : Type}.
Variable drv : Driver W.

(** A method is its connection check followed by its guarded [try] block. *)
Lemma invoke_connected (c : Call) (s : State) (db : Handle) :
  is_data_operation c = true ->
  this_db s = Some db ->
  invoke drv c s =
  try_catch (try_block drv db c) (rethrow (catch_prefix c)) s.
Proof.
  intros Hc Hdb.
  destruct c; try discriminate; simpl;
    unfold createTable, find, findOne, create, update, delete, bind,
      ensureConnected; rewrite Hdb; reflexivity.
Qed.

Lemma try_catch_throw {A : Type} (body : @M W A) (prefix : string)
  (s s' : State) (inner : Thrown) :
  body s = (Throw inner, s') ->
  try_catch body (rethrow prefix) s =
  (Throw (DatabaseError (prefix +:+ error_message inner)), s').
Proof. intros H. unfold try_catch. rewrite H. reflexivity. Qed.

Lemma try_catch_ok {A : Type} (body : @M W A) (prefix : string)
  (s s' : State) (a : A) :
  body s = (Ok a, s') ->
  try_catch body (rethrow prefix) s = (Ok a, s').
Proof. intros H. unfold try_catch. rewrite H. reflexivity. Qed.

(** A condition that does not compile stops the [try] block of the four
    methods that take one before anything is sent to the driver. *)
Lemma compile_error_in_try (db : Handle) (c : Call) (w : JSObject)
  (e : Thrown) (s : State) :
  condition_of c = Some w ->
  Compiler.buildWhereClause w = Throw e ->
  try_block drv db c s = (Throw e, s).
Proof.
  intros Hc He. destruct c; try discriminate; simpl in Hc;
    injection Hc as <-; simpl;
    unfold find_try, findOne_try, update_try, delete_try, bind,
      buildWhereClause, lift; rewrite He; reflexivity.
Qed.

Lemma delete_try_empty_clause (db : Handle) (table : string) (w : JSObject)
  (r : Compiler.WhereClause) (s : State) :
  Compiler.buildWhereClause w = Ok r ->
  Compiler.clause r = "" ->
  delete_try drv db table w s =
  (Throw (DatabaseError "Delete operation requires where clause"), s).
Proof.
  intros Hr Hc. unfold delete_try, bind, buildWhereClause, lift.
  rewrite Hr, Hc. reflexivity.
Qed.

(** C7: on a connected instance, [delete] with a condition that compiles
    to the empty clause is rejected with the missing-where-clause error
    and changes nothing: the outside world, the trace of statements sent
    to the driver and the instance are as before the call. *)
Theorem delete_requires_where_clause (s : State) (db : Handle) (table : string)
  (w : JSObject) (r : Compiler.WhereClause) :
  this_db s = Some db ->
  Compiler.buildWhereClause w = Ok r ->
  Compiler.clause r = "" ->
  delete drv table w s =
  (Throw (DatabaseError
            "Failed to delete records: Delete operation requires where clause"),
   s).
Proof.
  intros Hdb Hr Hc.
  change (delete drv table w s) with (invoke drv (CallDelete table w) s).
  rewrite (invoke_connected (CallDelete table w) s db eq_refl Hdb).
  rewrite (try_catch_throw _ _ s s _ (delete_try_empty_clause db table w r s Hr Hc)).
  reflexivity.
Qed.

(** C8: on a connected instance, [update] with a condition that compiles
    sends exactly one statement, [UPDATE <table> SET <col = ?, ...>
    <clause>], whose parameters are the values of [data] in its order
    followed by the parameters of the clause; when the driver reports [n]
    changed rows, [n] is returned, zero included. *)
Theorem update_statement_and_count (s : State) (db : Handle) (table : string)
  (w data : JSObject) (r : Compiler.WhereClause) (n : Z) (w' : W) :
  let query :=
    "UPDATE " +:+ table +:+ " SET " +:+
    join ", " (map (fun key => key +:+ " = ?") (map fst data)) +:+ " " +:+
    Compiler.clause r in
  let allParams := map snd data ++ Compiler.wparams r in
  this_db s = Some db ->
  Compiler.buildWhereClause w = Ok r ->
  db_run drv db query allParams (world s) = (Ok (mkRun (JNum n)), w') ->
  update drv table w data s =
  (Ok (JNum n), set_world w' (record (mkStmt MRun query allParams) s)).
Proof.
  intros query allParams Hdb Hr Hrun.
  change (update drv table w data s)
    with (invoke drv (CallUpdate table w data) s).
  rewrite (invoke_connected (CallUpdate table w data) s db eq_refl Hdb).
  apply try_catch_ok. simpl.
  unfold update_try, bind, buildWhereClause, lift, call_run. rewrite Hr.
  unfold Object_keys, Object_values. fold query. fold allParams.
  rewrite Hrun. unfold ret, js_or. simpl.
  destruct (Z.eqb_spec n 0) as [->|Hn]; reflexivity.
Qed.


Lemma get_set_prop (o : JSObject) (k : string) (v : JSValue) :
  get_prop (set_prop o k v) k = v.
Proof.
  induction o as [|[k' v'] o IH]; simpl.
  - rewrite String.eqb_refl. reflexivity.
  - destruct (String.eqb k' k) eqn:E; simpl; rewrite E; [reflexivity | exact IH].
Qed.

Lemma truthy_or_null (v : JSValue) : truthy (js_or v JNull) = truthy v.
Proof. unfold js_or. destruct (truthy v) eqn:E; [exact E | reflexivity]. Qed.

(** The query [findOne] sends for a compiled clause and no ordering. *)
Lemma findOne_reads (s : State) (db : Handle) (table : string) (w : JSObject)
  (r : Compiler.WhereClause) (row : JSValue) (w' : W) :
  let query :=
    ("SELECT * FROM " +:+ table +:+ " " +:+ Compiler.clause r) +:+ " LIMIT 1" in
  this_db s = Some db ->
  Compiler.buildWhereClause w = Ok r ->
  db_get drv db query (Compiler.wparams r) (world s) = (Ok row, w') ->
  findOne drv table (mkOptions (Some w) None None None) s =
  (Ok (js_or row JNull),
   set_world w' (record (mkStmt MGet query (Compiler.wparams r)) s)).
Proof.
  intros query Hdb Hr Hget.
  change (findOne drv table (mkOptions (Some w) None None None) s)
    with (invoke drv (CallFindOne table (mkOptions (Some w) None None None)) s).
  rewrite (invoke_connected
             (CallFindOne table (mkOptions (Some w) None None None)) s db
             eq_refl Hdb).
  apply try_catch_ok. simpl.
  unfold findOne_try, bind, buildWhereClause, lift, call_get. simpl.
  rewrite Hr. fold query. rewrite Hget. reflexivity.
Qed.

(** [create] after its identifier step, on an object that has its id. *)
Lemma create_try_steps (s : State) (db : Handle) (table : string) (data : Ref)
  (d d' : JSObject) (w1 w2 w3 : W) (rr : RunResult)
  (r : Compiler.WhereClause) (row : JSValue) :
  let insert := insert_query table (map fst d') in
  let read :=
    ("SELECT * FROM " +:+ table +:+ " " +:+ Compiler.clause r) +:+ " LIMIT 1" in
  this_db s = Some db ->
  heap s !! data = Some d ->
  resolve_id drv d (world s) = (d', w1) ->
  db_run drv db insert (map snd d') w1 = (Ok rr, w2) ->
  Compiler.buildWhereClause [("id", get_prop d' "id")] = Ok r ->
  db_get drv db read (Compiler.wparams r) w2 = (Ok row, w3) ->
  exists s',
    create_try drv db table data s =
    ((if truthy row then Ok (get_prop d' "id")
      else Throw (DatabaseError
                    "Failed to create record: Record not found after insertion")),
     s') /\
    heap s' !! data = Some d' /\
    world s' = w3 /\
    issued s' =
      issued s ++
      [mkStmt MRun insert (map snd d'); mkStmt MGet read (Compiler.wparams r)].
Proof.
  intros insert read Hdb Hheap Hres Hrun Hr Hget. subst insert read.
  unfold resolve_id in Hres.
  destruct (truthy (get_prop d "id")) eqn:Hid.
  - injection Hres as <- <-.
    unfold create_try, bind, deref. rewrite Hheap, Hid. simpl.
    rewrite Hheap.
    unfold call_run, Object_keys, Object_values. rewrite Hrun. simpl.
    rewrite Hheap.
    erewrite findOne_reads; [| exact Hdb | exact Hr | exact Hget].
    rewrite truthy_or_null. destruct (truthy row); simpl.
    + rewrite Hheap. eexists. split; [reflexivity|]. simpl.
      rewrite <- app_assoc. repeat split; assumption.
    + eexists. split; [reflexivity|]. simpl.
      rewrite <- app_assoc. repeat split; assumption.
  - destruct (uuid_v4 drv (world s)) as [u wu] eqn:Hu.
    injection Hres as <- <-.
    unfold create_try, bind, deref. rewrite Hheap, Hid. simpl.
    unfold call_uuid, assign. rewrite Hu. simpl. rewrite Hheap. simpl.
    rewrite lookup_insert_eq.
    unfold call_run, Object_keys, Object_values. simpl. rewrite Hrun. simpl.
    rewrite lookup_insert_eq.
    erewrite findOne_reads; [| exact Hdb | exact Hr | exact Hget].
    rewrite truthy_or_null. destruct (truthy row); simpl.
    + rewrite lookup_insert_eq. eexists. split; [reflexivity|]. simpl.
      rewrite lookup_insert_eq, <- app_assoc. repeat split.
    + eexists. split; [reflexivity|]. simpl.
      rewrite lookup_insert_eq, <- app_assoc. repeat split.
Qed.

Lemma unknown_operator_throws (before after : JSObject) (key operator : string)
  (ops rest : list (string * JSValue)) (v : JSValue) (a : Compiler.Acc) :
  forEach before Compiler.entry_case Compiler.empty = Ok a ->
  forallb known_operator (map fst ops) = true ->
  known_operator operator = false ->
  Compiler.buildWhereClause
    (before ++ (key, JObj (ops ++ (operator, v) :: rest)) :: after) =
  Throw (DatabaseError ("Unknown operator: " +:+ operator)).
Proof.
  intros Hbefore Hops Hop.
  unfold Compiler.buildWhereClause, Compiler.collect.
  change (Compiler.mkAcc [] []) with Compiler.empty.
  rewrite forEach_app, Hbefore. cbn [forEach].
  rewrite (CompilerFacts.entry_case_object key
             (JObj (ops ++ (operator, v) :: rest)) a eq_refl).
  cbn [Object_entries].
  rewrite forEach_app, (CompilerFacts.operators_known key ops a Hops).
  cbn [forEach].
  rewrite (CompilerFacts.operator_case_unknown key operator v _ Hop).
  reflexivity.
Qed.

(** C4: an entry whose value is an operator mapping adds, operator by
    operator in the mapping's order, the fragment [<column> <symbol> ?]
    of the table gt [>], lt [<], gte [>=], lte [<=], ne [!=], and the
    operator's value as parameter, and [buildWhereClause] returns these
    fragments and parameters at the entry's place, between those of the
    entries before and after it; an operator outside the table makes
    compilation throw [Unknown operator: <operator>], and [find],
    [findOne], [update] and [delete] called with such a condition fail
    with that error, wrapped, leaving the state (outside world and
    statement trace included) untouched. *)
Theorem operator_conditions_compile (s : State) (db : Handle)
  (before after : JSObject) (key : string) (ops : list (string * JSValue))
  (a : Compiler.Acc) :
  this_db s = Some db ->
  forEach before Compiler.entry_case Compiler.empty = Ok a ->
  forallb known_operator (map fst ops) = true ->
  map spec_symbol ["gt"; "lt"; "gte"; "lte"; "ne"] =
    [Some ">"; Some "<"; Some ">="; Some "<="; Some "!="] /\
  forEach (before ++ (key, JObj ops) :: after) Compiler.entry_case
    Compiler.empty =
  forEach after Compiler.entry_case
    (Compiler.mkAcc
       (Compiler.conditions a ++ map (spec_fragment key) ops)
       (Compiler.params a ++ map snd ops)) /\
  (forall c,
     forEach after Compiler.entry_case Compiler.empty = Ok c ->
     Compiler.buildWhereClause (before ++ (key, JObj ops) :: after) =
     Ok (Compiler.mkWhere
           (clause_text
              (Compiler.conditions a ++ map (spec_fragment key) ops ++
               Compiler.conditions c))
           (Compiler.params a ++ map snd ops ++ Compiler.params c))) /\
  (forall operator v rest,
     known_operator operator = false ->
     let w := before ++ (key, JObj (ops ++ (operator, v) :: rest)) :: after in
     Compiler.buildWhereClause w =
       Throw (DatabaseError ("Unknown operator: " +:+ operator)) /\
     (forall c,
        condition_of c = Some w ->
        invoke drv c s =
        (Throw (DatabaseError
                  (catch_prefix c +:+ "Unknown operator: " +:+ operator)),
         s))).
Proof.
  intros Hdb Hbefore Hops.
  assert (Hentry :
    forEach (before ++ (key, JObj ops) :: after) Compiler.entry_case
      Compiler.empty =
    forEach after Compiler.entry_case
      (Compiler.mkAcc
         (Compiler.conditions a ++ map (spec_fragment key) ops)
         (Compiler.params a ++ map snd ops))).
  { rewrite forEach_app, Hbefore. cbn [forEach].
    rewrite (CompilerFacts.entry_case_object key (JObj ops) a eq_refl).
    cbn [Object_entries].
    rewrite (CompilerFacts.operators_known key ops a Hops). reflexivity. }
  split; [reflexivity|]. split; [exact Hentry|]. split.
  - intros c Hafter.
    unfold Compiler.buildWhereClause, Compiler.collect.
    change (Compiler.mkAcc [] []) with Compiler.empty. rewrite Hentry.
    rewrite (CompilerFacts.forEach_appends Compiler.entry_case
               CompilerFacts.entry_case_appends after), Hafter.
    unfold result_map, Compiler.finish, Compiler.acc_app, clause_text.
    cbn [Compiler.conditions Compiler.params]. rewrite <- !app_assoc.
    destruct (Compiler.conditions a ++ map (spec_fragment key) ops ++
              Compiler.conditions c); reflexivity.
  - intros operator v rest Hop w.
    pose proof (unknown_operator_throws before after key operator ops rest v a
                  Hbefore Hops Hop) as Hw.
    split; [exact Hw|].
    intros c Hc.
    assert (Hdata : is_data_operation c = true)
      by (destruct c; try discriminate; reflexivity).
    rewrite (invoke_connected c s db Hdata Hdb).
    rewrite (try_catch_throw _ _ s s _ (compile_error_in_try db c w _ s Hc Hw)).
    reflexivity.
Qed.

(** C2 (amended): [create] takes a missing or falsy [id] (undefined, null,
    false, 0, the empty string) for no id: it then writes an identifier
    drawn from the generator into the caller's object before inserting;
    an object with a truthy [id] is left as it is.  When the insert
    succeeds and the row is read back, [create] returns the [id] the
    object then has: the generated one, or the caller's truthy one. *)
Theorem create_returns_resolved_id (s : State) (db : Handle) (table : string)
  (data : Ref) (d d' : JSObject) (w1 w2 w3 : W) (rr : RunResult)
  (r : Compiler.WhereClause) (row : JSValue) :
  let insert := insert_query table (map fst d') in
  let read :=
    ("SELECT * FROM " +:+ table +:+ " " +:+ Compiler.clause r) +:+ " LIMIT 1" in
  this_db s = Some db ->
  heap s !! data = Some d ->
  resolve_id drv d (world s) = (d', w1) ->
  db_run drv db insert (map snd d') w1 = (Ok rr, w2) ->
  Compiler.buildWhereClause [("id", get_prop d' "id")] = Ok r ->
  db_get drv db read (Compiler.wparams r) w2 = (Ok row, w3) ->
  truthy row = true ->
  fst (create drv table data s) = Ok (get_prop d' "id") /\
  heap (snd (create drv table data s)) !! data = Some d' /\
  (if truthy (get_prop d "id")
   then d' = d
   else d' = set_prop d "id" (JStr (fst (uuid_v4 drv (world s)))) /\
        get_prop d' "id" = JStr (fst (uuid_v4 drv (world s)))).
Proof.
  intros insert read Hdb Hheap Hres Hrun Hr Hget Hrow.
  destruct (create_try_steps s db table data d d' w1 w2 w3 rr r row
              Hdb Hheap Hres Hrun Hr Hget) as (s' & Htry & Hh & _ & _).
  rewrite Hrow in Htry.
  change (create drv table data s) with (invoke drv (CallCreate table data) s).
  rewrite (invoke_connected (CallCreate table data) s db eq_refl Hdb).
  rewrite (try_catch_ok _ _ s s' _ Htry). simpl.
  split; [reflexivity|]. split; [exact Hh|].
  unfold resolve_id in Hres. destruct (truthy (get_prop d "id")).
  - injection Hres as <- _. reflexivity.
  - destruct (uuid_v4 drv (world s)) as [u wu]. injection Hres as <- _.
    simpl. split; [reflexivity | apply get_set_prop].
Qed.

(** C10: on a connected instance every data operation is its [try] block
    under its own [catch]: a result passes through, an error raised in
    the block reaches the caller as a [DatabaseError] whose message is
    the method's prefix followed by the inner message, and nothing else
    is thrown.  So [delete] with an empty condition rejects with the
    prefixed missing-where message, and [create] whose read-back finds no
    row rejects with the doubled prefix.  On an instance that is not
    connected the check made before the [try] block throws, unwrapped. *)
Theorem errors_are_rewrapped (s : State) (db : Handle) :
  this_db s = Some db ->
  (forall c e s',
     is_data_operation c = true ->
     invoke drv c s = (Throw e, s') ->
     exists inner,
       try_block drv db c s = (Throw inner, s') /\
       e = DatabaseError (catch_prefix c +:+ error_message inner)) /\
  (forall c inner s',
     is_data_operation c = true ->
     try_block drv db c s = (Throw inner, s') ->
     invoke drv c s =
     (Throw (DatabaseError (catch_prefix c +:+ error_message inner)), s')) /\
  (forall table,
     delete drv table [] s =
     (Throw (DatabaseError
               "Failed to delete records: Delete operation requires where clause"),
      s)) /\
  (forall table data d d' w1 w2 w3 rr r row,
     heap s !! data = Some d ->
     resolve_id drv d (world s) = (d', w1) ->
     db_run drv db (insert_query table (map fst d')) (map snd d') w1 =
       (Ok rr, w2) ->
     Compiler.buildWhereClause [("id", get_prop d' "id")] = Ok r ->
     db_get drv db
       (("SELECT * FROM " +:+ table +:+ " " +:+ Compiler.clause r) +:+ " LIMIT 1")
       (Compiler.wparams r) w2 = (Ok row, w3) ->
     truthy row = false ->
     fst (create drv table data s) =
     Throw (DatabaseError
              "Failed to create record: Failed to create record: Record not found after insertion")) /\
  (forall c s0,
     is_data_operation c = true ->
     this_db s0 = None ->
     invoke drv c s0 = (Throw not_connected, s0)).
Proof.
  intros Hdb. repeat split.
  - intros c e s' Hc Hinv. rewrite (invoke_connected c s db Hc Hdb) in Hinv.
    unfold try_catch in Hinv.
    destruct (try_block drv db c s) as [[v|inner] s1]; [discriminate|].
    unfold rethrow, throw in Hinv. injection Hinv as <- <-.
    exists inner. split; reflexivity.
  - intros c inner s' Hc Htry. rewrite (invoke_connected c s db Hc Hdb).
    apply try_catch_throw. exact Htry.
  - intros table.
    change (delete drv table [] s) with (invoke drv (CallDelete table []) s).
    rewrite (invoke_connected (CallDelete table []) s db eq_refl Hdb).
    rewrite (try_catch_throw _ _ s s _
               (delete_try_empty_clause db table [] (Compiler.mkWhere "" []) s
                  eq_refl eq_refl)).
    reflexivity.
  - intros table data d d' w1 w2 w3 rr r row Hheap Hres Hrun Hr Hget Hrow.
    destruct (create_try_steps s db table data d d' w1 w2 w3 rr r row
                Hdb Hheap Hres Hrun Hr Hget) as (s' & Htry & _).
    rewrite Hrow in Htry.
    change (create drv table data s)
      with (invoke drv (CallCreate table data) s).
    rewrite (invoke_connected (CallCreate table data) s db eq_refl Hdb).
    rewrite (try_catch_throw _ _ s s' _ Htry). reflexivity.
  - intros c s0 Hc Hnone. unfold not_connected.
    destruct c; try discriminate; simpl;
      unfold createTable, find, findOne, create, update, delete, bind,
        ensureConnected; rewrite Hnone; reflexivity.
Qed.

End Operations.

(** ** The claims on concrete runs *)

Module Runs.

(** C2 fails as stated: a caller-supplied [id] of [0] is taken for a
    missing one, overwritten in the caller's object, and the generated
    identifier is returned in its place. *)
Lemma create_falsy_id_counterexample :
  let drv := stub_driver (JNum 1) (JObj [("id", JStr "uuid-0")]) [] in
  let s := connected_client zero_id_heap in
  heap s !! 0 = Some [("id", JNum 0); ("name", JStr "A")] /\
  fst (create drv "users" 0 s) = Ok (JStr "uuid-0") /\
  fst (create drv "users" 0 s) <> Ok (JNum 0) /\
  heap (snd (create drv "users" 0 s)) !! 0 =
    Some [("id", JStr "uuid-0"); ("name", JStr "A")].
Proof.
  repeat split; try reflexivity. vm_compute. discriminate.
Qed.

Lemma create_returns_resolved_id_witness :
  let drv := stub_driver (JNum 1) (JObj [("id", JStr "uuid-0")]) [] in
  let s := connected_client {[ 0 := [("name", JStr "A")] ]} in
  let d := [("name", JStr "A")] in
  let d' := [("name", JStr "A"); ("id", JStr "uuid-0")] in
  fst (create drv "users" 0 s) = Ok (get_prop d' "id") /\
  heap (snd (create drv "users" 0 s)) !! 0 = Some d' /\
  (if truthy (get_prop d "id")
   then d' = d
   else d' = set_prop d "id" (JStr (fst (uuid_v4 drv (world s)))) /\
        get_prop d' "id" = JStr (fst (uuid_v4 drv (world s)))).
Proof.
  intros drv s d d'.
  apply (create_returns_resolved_id drv s 1 "users" 0 d d' 1 1 1
           (mkRun (JNum 1)) (Compiler.mkWhere "WHERE id = ?" [JStr "uuid-0"])
           (JObj [("id", JStr "uuid-0")]));
    reflexivity.
Defined.

(** C3 fails as stated: after [close()], [connect()] on the same instance
    opens the database again and a following [find] succeeds. *)
Lemma reconnect_counterexample :
  let drv := stub_driver (JNum 1) JUndefined [] in
  ~ (forall (s1 : State) (calls : list Call) (c : Call) (r : Result JSValue),
       close drv (connected_client ∅) = (Ok JUndefined, s1) ->
       In (c, r) (fst (run_calls drv calls s1)) ->
       is_data_operation c = true ->
       exists e, r = Throw e).
Proof.
  intros drv H.
  destruct (H (snd (close drv (connected_client ∅)))
              [CallConnect; CallFind "users" no_options]
              (CallFind "users" no_options) (Ok (JArr []))
              eq_refl (or_intror (or_introl eq_refl)) eq_refl) as [e He].
  discriminate.
Qed.

Lemma closed_until_reconnect_witness :
  let drv := stub_driver (JNum 1) JUndefined [] in
  let s1 := fresh_client ∅ in
  let calls := [CallFind "users" no_options; CallClose;
                CallDelete "users" [("id", JNum 1)]] in
  let s2 := snd (run_calls drv calls s1) in
  this_db s2 = None /\
  (forall c r, In (c, r) (fst (run_calls drv calls s1)) ->
     is_data_operation c = true -> r = Throw not_connected) /\
  (forall h w',
     sqlite_open drv (config_database s2) (world s2) = (Ok h, w') ->
     fst (connect drv s2) = Ok JUndefined /\
     this_db (snd (connect drv s2)) = Some h).
Proof.
  intros drv s1 calls.
  apply (closed_until_reconnect drv (connected_client ∅) s1 1 calls);
    reflexivity.
Defined.

Lemma operator_conditions_compile_witness :
  let drv := stub_driver (JNum 1) JUndefined [] in
  let s := connected_client ∅ in
  let before := [("name", JStr "A")] in
  let ops := [("gt", JNum 20); ("lte", JNum 65)] in
  let a := Compiler.mkAcc ["name = ?"] [JStr "A"] in
  map spec_symbol ["gt"; "lt"; "gte"; "lte"; "ne"] =
    [Some ">"; Some "<"; Some ">="; Some "<="; Some "!="] /\
  forEach (before ++ ("age", JObj ops) :: []) Compiler.entry_case
    Compiler.empty =
  forEach [] Compiler.entry_case
    (Compiler.mkAcc
       (Compiler.conditions a ++ map (spec_fragment "age") ops)
       (Compiler.params a ++ map snd ops)) /\
  (forall c,
     forEach [] Compiler.entry_case Compiler.empty = Ok c ->
     Compiler.buildWhereClause (before ++ ("age", JObj ops) :: []) =
     Ok (Compiler.mkWhere
           (clause_text
              (Compiler.conditions a ++ map (spec_fragment "age") ops ++
               Compiler.conditions c))
           (Compiler.params a ++ map snd ops ++ Compiler.params c))) /\
  (forall operator v rest,
     known_operator operator = false ->
     let w := before ++ ("age", JObj (ops ++ (operator, v) :: rest)) :: [] in
     Compiler.buildWhereClause w =
       Throw (DatabaseError ("Unknown operator: " +:+ operator)) /\
     (forall c,
        condition_of c = Some w ->
        invoke drv c s =
        (Throw (DatabaseError
                  (catch_prefix c +:+ "Unknown operator: " +:+ operator)),
         s))).
Proof.
  intros drv s before ops a.
  apply (operator_conditions_compile drv s 1 before [] "age" ops a);
    reflexivity.
Defined.

Lemma delete_requires_where_clause_witness :
  let drv := stub_driver (JNum 1) JUndefined [] in
  let s := connected_client zero_id_heap in
  delete drv "users" [("tags", JArr [])] s =
  (Throw (DatabaseError
            "Failed to delete records: Delete operation requires where clause"),
   s).
Proof.
  intros drv s.
  apply (delete_requires_where_clause drv s 1 "users" [("tags", JArr [])]
           (Compiler.mkWhere "" []));
    reflexivity.
Defined.

Lemma update_statement_and_count_witness :
  let drv := stub_driver (JNum 0) JUndefined [] in
  let s := connected_client ∅ in
  update drv "users" [("id", JStr "non-existent")] [("age", JNum 31)] s =
  (Ok (JNum 0),
   set_world 0
     (record
        (mkStmt MRun "UPDATE users SET age = ? WHERE id = ?"
           [JNum 31; JStr "non-existent"]) s)).
Proof.
  intros drv s.
  apply (update_statement_and_count drv s 1 "users"
           [("id", JStr "non-existent")] [("age", JNum 31)]
           (Compiler.mkWhere "WHERE id = ?" [JStr "non-existent"]) 0 0);
    reflexivity.
Defined.

Lemma errors_are_rewrapped_witness :
  let drv := stub_driver (JNum 1) JUndefined [] in
  let s := connected_client zero_id_heap in
  (forall table,
     delete drv table [] s =
     (Throw (DatabaseError
               "Failed to delete records: Delete operation requires where clause"),
      s)) /\
  fst (create drv "users" 0 s) =
    Throw (DatabaseError
             "Failed to create record: Failed to create record: Record not found after insertion").
Proof.
  intros drv s.
  destruct (errors_are_rewrapped drv s 1 eq_refl) as (_ & _ & Hdel & Hcreate & _).
  split; [exact Hdel|].
  apply (Hcreate "users" 0 [("id", JNum 0); ("name", JStr "A")]
           [("id", JStr "uuid-0"); ("name", JStr "A")] 1 1 1
           (mkRun (JNum 1)) (Compiler.mkWhere "WHERE id = ?" [JStr "uuid-0"])
           JUndefined);
    reflexivity.
Defined.

End Runs.

(** ** More on the compiler *)

Module CompilerMore.
Import Compiler CompilerFacts.

Lemma append_empty_r (s : string) : s +:+ "" = s.
Proof.
  induction s as [|c s IH]; [reflexivity|].
  change (String c (s +:+ "") = String c s). f_equal. exact IH.
Qed.

Lemma append_assoc (s t u : string) : (s +:+ t) +:+ u = s +:+ t +:+ u.
Proof.
  induction s as [|c s IH]; [reflexivity|].
  change (String c ((s +:+ t) +:+ u) = String c (s +:+ t +:+ u)).
  f_equal. exact IH.
Qed.

Lemma collect_from (w : JSObject) (a : Acc) :
  forEach w entry_case a = result_map (acc_app a) (collect w).
Proof. apply (forEach_appends entry_case entry_case_appends). Qed.

(** X1: Compiling the entries of two mappings one after the other: the
    fragments and the parameters of the first, then those of the second. *)
Theorem compile_concatenation (w1 w2 : JSObject) (a1 a2 : Acc) :
  collect w1 = Ok a1 ->
  collect w2 = Ok a2 ->
  buildWhereClause (w1 ++ w2) = Ok (finish (acc_app a1 a2)) /\
  wparams (finish (acc_app a1 a2)) = params a1 ++ params a2.
Proof.
  intros H1 H2. split; [|reflexivity].
  unfold buildWhereClause, collect. unfold collect in H1.
  rewrite forEach_app, H1, collect_from, H2. reflexivity.
Qed.

Lemma compile_concatenation_witness :
  buildWhereClause ([("name", JStr "A")] ++ [("age", JObj [("gte", JNum 18)])]) =
    Ok (finish (acc_app (mkAcc ["name = ?"] [JStr "A"])
                        (mkAcc ["age >= ?"] [JNum 18]))) /\
  wparams (finish (acc_app (mkAcc ["name = ?"] [JStr "A"])
                           (mkAcc ["age >= ?"] [JNum 18]))) =
    [JStr "A"] ++ [JNum 18].
Proof.
  apply (compile_concatenation [("name", JStr "A")]
           [("age", JObj [("gte", JNum 18)])]); reflexivity.
Defined.

(** X2: The first entry that does not compile decides the error: what comes
    after it is never looked at. *)
Theorem compile_stops_at_first_error (w1 w2 : JSObject) (e : Thrown) :
  buildWhereClause w1 = Throw e ->
  buildWhereClause (w1 ++ w2) = Throw e.
Proof.
  unfold buildWhereClause, collect. intros H.
  rewrite forEach_app.
  destruct (forEach w1 entry_case (mkAcc [] [])); [discriminate|].
  exact H.
Qed.

Lemma compile_stops_at_first_error_witness :
  buildWhereClause
    ([("age", JObj [("between", JNum 1)])] ++ [("n", JObj [("like", JNum 2)])]) =
  Throw (DatabaseError "Unknown operator: between").
Proof.
  apply (compile_stops_at_first_error [("age", JObj [("between", JNum 1)])]).
  reflexivity.
Defined.

(** X3: An entry whose value is an empty object or an empty array adds
    nothing: the mapping compiles as if the entry were not there. *)
Theorem empty_object_entry_is_ignored (before after : JSObject) (key : string)
  (value : JSValue) :
  value = JObj [] \/ value = JArr [] ->
  buildWhereClause (before ++ (key, value) :: after) =
  buildWhereClause (before ++ after).
Proof.
  intros Hv. unfold buildWhereClause, collect. f_equal.
  rewrite !forEach_app.
  destruct (forEach before entry_case (mkAcc [] [])) as [a|e]; [|reflexivity].
  destruct Hv as [-> | ->]; reflexivity.
Qed.

Lemma empty_object_entry_is_ignored_witness :
  buildWhereClause ([("name", JStr "A")] ++ ("age", JObj []) :: [("n", JNum 1)]) =
  buildWhereClause ([("name", JStr "A")] ++ [("n", JNum 1)]).
Proof.
  apply (empty_object_entry_is_ignored [("name", JStr "A")] [("n", JNum 1)]
           "age" (JObj [])).
  left. reflexivity.
Defined.

Lemma operators_same_length (key : string) (ops : list (string * JSValue)) :
  forall a b,
  forEach ops
    (fun '(operator, operatorValue) => operator_case key operator operatorValue)
    a = Ok b ->
  length (conditions b) + length (params a) =
  length (params b) + length (conditions a).
Proof.
  induction ops as [|[op v] ops IH]; intros a b H; simpl in H.
  - injection H as <-. lia.
  - destruct (known_operator op) eqn:Hop.
    + rewrite (operator_case_known key op v a Hop) in H.
      apply IH in H. cbn [conditions params] in H.
      rewrite !length_app in H. cbn [length] in H. lia.
    + rewrite (operator_case_unknown key op v a Hop) in H. discriminate.
Qed.

Lemma entries_same_length (w : JSObject) :
  forall a b,
  forEach w entry_case a = Ok b ->
  length (conditions b) + length (params a) =
  length (params b) + length (conditions a).
Proof.
  induction w as [|[key value] w IH]; intros a b H; cbn [forEach] in H.
  - injection H as <-. lia.
  - destruct (entry_case (key, value) a) as [c|e] eqn:Hc; [|discriminate].
    apply IH in H.
    destruct (is_scalar value) eqn:Hs.
    + rewrite (entry_case_scalar key value a Hs) in Hc. injection Hc as <-.
      cbn [conditions params] in H. rewrite !length_app in H.
      cbn [length] in H. lia.
    + rewrite (entry_case_object key value a Hs) in Hc.
      apply operators_same_length in Hc. lia.
Qed.

(** X4: Every fragment of a compiled clause carries exactly one parameter,
    so the clause is empty exactly when there is no parameter, and a
    clause that is not empty starts with the [WHERE] keyword. *)
Theorem clause_empty_iff_no_params (w : JSObject) (r : WhereClause) :
  buildWhereClause w = Ok r ->
  (clause r = "" <-> wparams r = []) /\
  (clause r = "" \/ exists rest, clause r = "WHERE " +:+ rest).
Proof.
  unfold buildWhereClause, collect. intros H.
  destruct (forEach w entry_case (mkAcc [] [])) as [b|e] eqn:Hb; [|discriminate].
  injection H as <-. apply entries_same_length in Hb. simpl in Hb.
  unfold finish. simpl.
  destruct (conditions b) as [|c cs].
  - simpl in *. split; [|left; reflexivity].
    split; intros _; [|reflexivity].
    destruct (params b); [reflexivity | simpl in Hb; lia].
  - cbn [length Nat.ltb Nat.leb]. split.
    + split; [discriminate|]. intros Hp. rewrite Hp in Hb. simpl in Hb. lia.
    + right. eexists. reflexivity.
Qed.

Lemma clause_empty_iff_no_params_witness :
  let r := mkWhere "WHERE age > ? AND n = ?" [JNum 3; JNull] in
  (clause r = "" <-> wparams r = []) /\
  (clause r = "" \/ exists rest, clause r = "WHERE " +:+ rest).
Proof.
  apply (clause_empty_iff_no_params [("age", JObj [("gt", JNum 3)]); ("n", JNull)]).
  reflexivity.
Defined.

Lemma compiled_clause_balanced (w : JSObject) (r : WhereClause) :
  no_placeholder_in_keys w = true ->
  buildWhereClause w = Ok r ->
  placeholders (clause r) = length (wparams r).
Proof.
  intros Hkeys H. unfold buildWhereClause, collect in H.
  destruct (forEach w entry_case (mkAcc [] [])) as [b|e] eqn:Hb; [|discriminate].
  injection H as <-.
  destruct (CompilerClaims.forEach_entries_split w _ _ Hb)
    as (per & Hper & Hcs & Hps).
  simpl in Hcs, Hps.
  apply CompilerClaims.finish_placeholders. rewrite Hcs, Hps.
  apply (CompilerClaims.per_entry_balance w per Hkeys Hper).
Qed.

Lemma placeholders_marks {A : Type} (xs : list A) :
  placeholders (join ", " (map (fun _ => "?") xs)) = length xs.
Proof.
  rewrite placeholders_join by reflexivity.
  unfold total_placeholders. induction xs as [|x xs IH]; [reflexivity|].
  simpl. rewrite IH. reflexivity.
Qed.

Lemma placeholders_clean_names (names : list string) (suffix : string) :
  forallb clean names = true ->
  total_placeholders (map (fun key => key +:+ suffix) names) =
  length names * placeholders suffix.
Proof.
  intros H. unfold total_placeholders.
  induction names as [|n names IH]; [reflexivity|].
  simpl in *. apply andb_prop in H as [Hn Hrest]. apply Nat.eqb_eq in Hn.
  rewrite placeholders_app, Hn, (IH Hrest). reflexivity.
Qed.

End CompilerMore.

(** ** What the methods leave alone *)

Section Frames.

Context {W X : Type}.
Variable drv : Driver W.
Variable view : @State W -> X.

Hypothesis view_world : forall w s, view (set_world w s) = view s.
Hypothesis view_record : forall st s, view (record st s) = view s.

Lemma preserves_ret {A : Type} (a : A) : preserves view (ret a).
Proof. intros s. reflexivity. Qed.

Lemma preserves_throw {A : Type} (e : Thrown) : preserves view (@throw W A e).
Proof. intros s. reflexivity. Qed.

Lemma preserves_lift {A : Type} (r : Result A) : preserves view (lift r).
Proof. intros s. reflexivity. Qed.

Lemma preserves_bind {A B : Type} (m : M A) (k : A -> M B) :
  preserves view m -> (forall a, preserves view (k a)) ->
  preserves view (bind m k).
Proof.
  intros Hm Hk s. unfold bind. specialize (Hm s).
  destruct (m s) as [[a|e] s1]; simpl in *.
  - rewrite (Hk a s1). exact Hm.
  - exact Hm.
Qed.

Lemma preserves_try_catch {A : Type} (body : M A) (prefix : string) :
  preserves view body -> preserves view (try_catch body (rethrow prefix)).
Proof.
  intros Hb s. unfold try_catch. specialize (Hb s).
  destruct (body s) as [[a|e] s1]; simpl in *; exact Hb.
Qed.

Lemma preserves_ensureConnected : preserves view ensureConnected.
Proof. intros s. unfold ensureConnected. destruct (this_db s); reflexivity. Qed.

Lemma preserves_call_run (db : Handle) (q : string) (ps : list JSValue) :
  preserves view (call_run drv db q ps).
Proof.
  intros s. unfold call_run. destruct (db_run drv db q ps (world s)) as [r w].
  simpl. rewrite view_world, view_record. reflexivity.
Qed.

Lemma preserves_call_all (db : Handle) (q : string) (ps : list JSValue) :
  preserves view (call_all drv db q ps).
Proof.
  intros s. unfold call_all. destruct (db_all drv db q ps (world s)) as [r w].
  simpl. rewrite view_world, view_record. reflexivity.
Qed.

Lemma preserves_call_get (db : Handle) (q : string) (ps : list JSValue) :
  preserves view (call_get drv db q ps).
Proof.
  intros s. unfold call_get. destruct (db_get drv db q ps (world s)) as [r w].
  simpl. rewrite view_world, view_record. reflexivity.
Qed.

Lemma preserves_call_uuid : preserves view (call_uuid drv).
Proof.
  intros s. unfold call_uuid. destruct (uuid_v4 drv (world s)) as [u w].
  simpl. apply view_world.
Qed.

Lemma preserves_deref (l : Ref) : preserves view (deref l).
Proof. intros s. unfold deref. destruct (heap s !! l); reflexivity. Qed.

Lemma preserves_guarded {A : Type} (body : Handle -> M A) (prefix : string) :
  (forall db, preserves view (body db)) ->
  preserves view
    (bind ensureConnected (fun db => try_catch (body db) (rethrow prefix))).
Proof.
  intros Hb. apply preserves_bind; [apply preserves_ensureConnected|].
  intros db. apply preserves_try_catch, Hb.
Qed.

Lemma preserves_createTable (table : string) (columns : list (string * string)) :
  preserves view (createTable drv table columns).
Proof.
  apply preserves_guarded. intros db. unfold createTable_try.
  apply preserves_bind; [apply preserves_call_run | intros; apply preserves_ret].
Qed.

Lemma preserves_find (table : string) (options : QueryOptions) :
  preserves view (find drv table options).
Proof.
  apply preserves_guarded. intros db. unfold find_try.
  apply preserves_bind; [apply preserves_lift | intros w].
  apply preserves_bind; [apply preserves_call_all | intros; apply preserves_ret].
Qed.

Lemma preserves_findOne (table : string) (options : QueryOptions) :
  preserves view (findOne drv table options).
Proof.
  apply preserves_guarded. intros db. unfold findOne_try.
  apply preserves_bind; [apply preserves_lift | intros w].
  apply preserves_bind; [apply preserves_call_get | intros; apply preserves_ret].
Qed.

Lemma preserves_update (table : string) (w data : JSObject) :
  preserves view (update drv table w data).
Proof.
  apply preserves_guarded. intros db. unfold update_try.
  apply preserves_bind; [apply preserves_lift | intros r].
  apply preserves_bind; [apply preserves_call_run | intros; apply preserves_ret].
Qed.

Lemma preserves_delete (table : string) (w : JSObject) :
  preserves view (delete drv table w).
Proof.
  apply preserves_guarded. intros db. unfold delete_try.
  apply preserves_bind; [apply preserves_lift | intros r].
  apply preserves_bind.
  - destruct (negb (string_truthy (Compiler.clause r)));
      [apply preserves_throw | apply preserves_ret].
  - intros _.
    apply preserves_bind; [apply preserves_call_run | intros; apply preserves_ret].
Qed.

Lemma preserves_create (table : string) (data : Ref) :
  (forall s o v,
     heap s !! data = Some o ->
     view (set_heap (<[data := set_prop o "id" v]> (heap s)) s) = view s) ->
  preserves view (create drv table data).
Proof.
  intros view_assign.
  assert (Hassign : forall v, preserves view (assign data "id" v)).
  { intros v s. unfold assign. destruct (heap s !! data) as [o|] eqn:Ho;
      [apply (view_assign s o v Ho) | reflexivity]. }
  apply preserves_guarded. intros db. unfold create_try.
  apply preserves_bind; [apply preserves_deref | intros d].
  apply preserves_bind.
  { destruct (negb (truthy (get_prop d "id"))); [|apply preserves_ret].
    apply preserves_bind; [apply preserves_call_uuid | intros u; apply Hassign]. }
  intros _. apply preserves_bind; [apply preserves_deref | intros d1].
  apply preserves_bind; [apply preserves_call_run | intros _].
  apply preserves_bind; [apply preserves_deref | intros d2].
  apply preserves_bind; [apply preserves_findOne | intros created].
  destruct (negb (truthy created)); [apply preserves_throw|].
  apply preserves_bind; [apply preserves_deref | intros; apply preserves_ret].
Qed.

End Frames.

Section Lifecycle.

Context {W : Type}.
Variable drv : Driver W.

Lemma get_set_prop_other (o : JSObject) (k k' : string) (v : JSValue) :
  k' <> k -> get_prop (set_prop o k v) k' = get_prop o k'.
Proof.
  intros Hk. induction o as [|[k0 v0] o IH]; simpl.
  - destruct (String.eqb_spec k k'); [congruence | reflexivity].
  - destruct (String.eqb_spec k0 k) as [->|Hne]; simpl.
    + destruct (String.eqb_spec k k'); [congruence | reflexivity].
    + destruct (String.eqb k0 k'); [reflexivity | exact IH].
Qed.

(** X5: A data operation, whether it succeeds or fails, leaves the
    connection handle and the configuration of the instance as they
    were: a failed statement does not disconnect the client. *)
Theorem data_operations_keep_connection (c : Call) (s : State) :
  is_data_operation c = true ->
  this_db (snd (invoke drv c s)) = this_db s /\
  config_database (snd (invoke drv c s)) = config_database s.
Proof.
  intros Hc.
  pose (view := fun s : @State W => (this_db s, config_database s)).
  assert (H : view (snd (invoke drv c s)) = view s).
  { destruct c; try discriminate; simpl.
    - apply (preserves_createTable drv view); reflexivity.
    - apply (preserves_find drv view); reflexivity.
    - apply (preserves_findOne drv view); reflexivity.
    - apply (preserves_create drv view); reflexivity.
    - apply (preserves_update drv view); reflexivity.
    - apply (preserves_delete drv view); reflexivity. }
  unfold view in H. injection H as H1 H2. split; assumption.
Qed.

(** X7: [create] writes nothing but the [id] of the object it is given:
    every other property of that object, and every property of every
    other object, reads the same after the call, whatever its outcome. *)
Theorem create_writes_only_id (s : State) (table : string) (data l : Ref)
  (k : string) :
  l <> data \/ k <> "id" ->
  field_at l k (snd (create drv table data s)) = field_at l k s.
Proof.
  intros Hlk.
  apply (preserves_create drv (field_at l k)); try reflexivity.
  intros s0 o v Ho. unfold field_at. simpl.
  destruct (decide (l = data)) as [->|Hne].
  - rewrite lookup_insert_eq, Ho.
    destruct Hlk as [Hl | Hk]; [congruence|].
    rewrite (get_set_prop_other o "id" k v Hk). reflexivity.
  - rewrite lookup_insert_ne by congruence. reflexivity.
Qed.

(** X8: When [open] rejects, [connect] rejects with the driver's message
    behind its own prefix, and the [db] field keeps what it held. *)
Theorem connect_failure_is_wrapped (s : State) (e : Thrown) (w' : W) :
  sqlite_open drv (config_database s) (world s) = (Throw e, w') ->
  connect drv s =
  (Throw (DatabaseError
            ("Failed to connect to database: " +:+ error_message e)),
   set_world w' s).
Proof.
  intros Hopen. unfold connect, connect_try, try_catch, call_open.
  rewrite Hopen. reflexivity.
Qed.

(** X9: [close] on an instance that is not connected does nothing, so a
    second [close] after one that succeeded changes nothing and reaches
    no driver. *)
Theorem close_twice_is_close_once (s s1 : State) (v : JSValue) :
  close drv s = (Ok v, s1) ->
  close drv s1 = (Ok JUndefined, s1).
Proof.
  intros H. apply close_when_disconnected.
  exact (close_ok_disconnects drv s s1 v H).
Qed.

(** X10: When the driver's [close] rejects, the error reaches the caller as
    the driver threw it, without a prefix, and the instance keeps its
    handle: it is still connected. *)
Theorem close_failure_keeps_connection (s : State) (db : Handle) (e : Thrown)
  (w' : W) :
  this_db s = Some db ->
  db_close drv db (world s) = (Throw e, w') ->
  close drv s = (Throw e, set_world w' s) /\
  this_db (snd (close drv s)) = Some db.
Proof.
  intros Hdb Hclose. unfold close, call_close. rewrite Hdb, Hclose.
  split; [reflexivity | exact Hdb].
Qed.

End Lifecycle.

(** ** The statements the methods send *)

Section Statements.

Context {W : Type}.
Variable drv : Driver W.

Lemma with_orderBy_part (o : option string) (query : string) :
  with_orderBy o query = query +:+ order_part o.
Proof.
  unfold with_orderBy, order_part, string_truthy.
  destruct o as [s|]; [|symmetry; apply CompilerMore.append_empty_r].
  destruct (String.eqb s ""); simpl;
    [symmetry; apply CompilerMore.append_empty_r | reflexivity].
Qed.

Lemma with_number_part (keyword : string) (n : option JSNumber)
  (query : string) :
  with_number keyword n query = query +:+ number_part keyword n.
Proof.
  unfold with_number, number_part.
  destruct n; [reflexivity | symmetry; apply CompilerMore.append_empty_r].
Qed.

Lemma find_query_parts (table clause : string) (options : QueryOptions) :
  with_number " OFFSET " (offset options)
    (with_number " LIMIT " (limit options)
       (with_orderBy (orderBy options)
          ("SELECT * FROM " +:+ table +:+ " " +:+ clause))) =
  "SELECT * FROM " +:+ table +:+ " " +:+ clause +:+
  order_part (orderBy options) +:+
  number_part " LIMIT " (limit options) +:+
  number_part " OFFSET " (offset options).
Proof.
  rewrite !with_number_part, with_orderBy_part.
  rewrite !CompilerMore.append_assoc. reflexivity.
Qed.

(** X11: [find] on a connected instance, with a condition that compiles: one
    [SELECT * FROM <table> <clause>] is sent through [all], followed, in
    this order, by [ORDER BY] when [orderBy] is a non-empty string, by
    [LIMIT] when a limit is given and by [OFFSET] when an offset is given
    (zero included, each without needing the other), the number written
    as JavaScript prints it; the parameters are the clause's, and the
    rows come back as the driver gave them. *)
Theorem find_statement (s : State) (db : Handle) (table : string)
  (options : QueryOptions) (r : Compiler.WhereClause) (rows : list JSValue)
  (w' : W) :
  let query :=
    "SELECT * FROM " +:+ table +:+ " " +:+ Compiler.clause r +:+
    order_part (orderBy options) +:+
    number_part " LIMIT " (limit options) +:+
    number_part " OFFSET " (offset options) in
  this_db s = Some db ->
  Compiler.buildWhereClause (default_where (where_ options)) = Ok r ->
  db_all drv db query (Compiler.wparams r) (world s) = (Ok rows, w') ->
  find drv table options s =
  (Ok (JArr rows),
   set_world w' (record (mkStmt MAll query (Compiler.wparams r)) s)).
Proof.
  intros query Hdb Hr Hall.
  change (find drv table options s)
    with (invoke drv (CallFind table options) s).
  rewrite (invoke_connected drv (CallFind table options) s db eq_refl Hdb).
  apply try_catch_ok. simpl.
  unfold find_try, bind, buildWhereClause, lift, call_all. rewrite Hr.
  rewrite find_query_parts. fold query. rewrite Hall. reflexivity.
Qed.

(** X12: [findOne] on a connected instance, with a condition that compiles:
    the query is the same [SELECT] with the optional [ORDER BY], always
    closed by [LIMIT 1]; the [limit] and [offset] options play no part.
    It resolves to the row when the driver gives one and to [null]
    otherwise. *)
Theorem findOne_statement (s : State) (db : Handle) (table : string)
  (options : QueryOptions) (r : Compiler.WhereClause) (row : JSValue)
  (w' : W) :
  let query :=
    "SELECT * FROM " +:+ table +:+ " " +:+ Compiler.clause r +:+
    order_part (orderBy options) +:+ " LIMIT 1" in
  this_db s = Some db ->
  Compiler.buildWhereClause (default_where (where_ options)) = Ok r ->
  db_get drv db query (Compiler.wparams r) (world s) = (Ok row, w') ->
  findOne drv table options s =
  (Ok (if truthy row then row else JNull),
   set_world w' (record (mkStmt MGet query (Compiler.wparams r)) s)).
Proof.
  intros query Hdb Hr Hget.
  change (findOne drv table options s)
    with (invoke drv (CallFindOne table options) s).
  rewrite (invoke_connected drv (CallFindOne table options) s db eq_refl Hdb).
  apply try_catch_ok. simpl.
  unfold findOne_try, bind, buildWhereClause, lift, call_get. rewrite Hr.
  rewrite with_orderBy_part, !CompilerMore.append_assoc. fold query.
  rewrite Hget. reflexivity.
Qed.

(** X13: Whatever [findOne] resolves to is [null] or truthy: never
    [undefined], [0], [false] or the empty string. *)
Theorem findOne_null_or_row (s s' : State) (table : string)
  (options : QueryOptions) (v : JSValue) :
  findOne drv table options s = (Ok v, s') ->
  v = JNull \/ truthy v = true.
Proof.
  unfold findOne, bind, ensureConnected.
  destruct (this_db s) as [db|]; [|discriminate].
  unfold try_catch, findOne_try, bind, buildWhereClause, lift.
  destruct (Compiler.buildWhereClause (default_where (where_ options)))
    as [r|e]; [|discriminate].
  destruct (call_get drv db _ (Compiler.wparams r) s) as [[row|e] s1];
    [|discriminate].
  unfold ret, js_or. intros H. injection H as <- _.
  destruct (truthy row) eqn:Hrow; [right; exact Hrow | left; reflexivity].
Qed.

(** X14: [delete] on a connected instance, with a condition that compiles to
    a clause that is not empty: one [DELETE FROM <table> <clause>] is
    sent with the clause's parameters, and the count the driver reports
    is returned, zero included. *)
Theorem delete_statement_and_count (s : State) (db : Handle) (table : string)
  (w : JSObject) (r : Compiler.WhereClause) (n : Z) (w' : W) :
  let query := "DELETE FROM " +:+ table +:+ " " +:+ Compiler.clause r in
  this_db s = Some db ->
  Compiler.buildWhereClause w = Ok r ->
  Compiler.clause r <> "" ->
  db_run drv db query (Compiler.wparams r) (world s) = (Ok (mkRun (JNum n)), w') ->
  delete drv table w s =
  (Ok (JNum n),
   set_world w' (record (mkStmt MRun query (Compiler.wparams r)) s)).
Proof.
  intros query Hdb Hr Hne Hrun.
  change (delete drv table w s) with (invoke drv (CallDelete table w) s).
  rewrite (invoke_connected drv (CallDelete table w) s db eq_refl Hdb).
  apply try_catch_ok. simpl.
  unfold delete_try, bind, buildWhereClause, lift, call_run, string_truthy.
  rewrite Hr. apply String.eqb_neq in Hne. rewrite Hne. simpl.
  fold query. rewrite Hrun. unfold ret, js_or. simpl.
  destruct (Z.eqb_spec n 0) as [->|Hn]; reflexivity.
Qed.

(** X15: [createTable] on a connected instance sends one statement without
    parameters, [CREATE TABLE IF NOT EXISTS <table> (<col> <type>, ...)]
    with the columns in the order given; it resolves to an empty array
    when the driver accepts the statement and rejects with the driver's
    message behind its prefix otherwise. *)
Theorem createTable_statement (s : State) (db : Handle) (table : string)
  (columns : list (string * string)) (res : Result RunResult) (w' : W) :
  let query :=
    "CREATE TABLE IF NOT EXISTS " +:+ table +:+ " (" +:+
    join ", " (map (fun c => fst c +:+ " " +:+ snd c) columns) +:+ ")" in
  this_db s = Some db ->
  db_run drv db query [] (world s) = (res, w') ->
  createTable drv table columns s =
  (match res with
   | Ok _ => Ok (JArr [])
   | Throw e =>
       Throw (DatabaseError ("Failed to create table: " +:+ error_message e))
   end,
   set_world w' (record (mkStmt MRun query []) s)).
Proof.
  intros query Hdb Hrun.
  change (createTable drv table columns s)
    with (invoke drv (CallCreateTable table columns) s).
  rewrite (invoke_connected drv (CallCreateTable table columns) s db eq_refl Hdb).
  simpl. unfold try_catch, createTable_try, bind, call_run.
  replace (map (fun '(key, type) => key +:+ " " +:+ type) columns)
    with (map (fun c : string * string => fst c +:+ " " +:+ snd c) columns)
    by (apply map_ext; intros [key type]; reflexivity).
  fold query. rewrite Hrun. destruct res; reflexivity.
Qed.

Lemma total_placeholders_clean (names : list string) :
  forallb clean names = true -> total_placeholders names = 0.
Proof.
  unfold total_placeholders. induction names as [|n names IH]; [reflexivity|].
  simpl. intros H. apply andb_prop in H as [Hn Hrest].
  apply Nat.eqb_eq in Hn. rewrite Hn, (IH Hrest). reflexivity.
Qed.

(** X16: The [INSERT] that [create] builds has as many placeholders as
    values, provided the table name and the object's keys bring no [?]
    of their own. *)
Theorem insert_statement_balanced (table : string) (d : JSObject) :
  clean table = true ->
  forallb clean (Object_keys d) = true ->
  placeholders (insert_query table (Object_keys d)) = length (Object_values d).
Proof.
  intros Ht Hk. apply Nat.eqb_eq in Ht. unfold insert_query.
  rewrite !placeholders_app.
  rewrite (placeholders_join ", " (Object_keys d)) by reflexivity.
  rewrite (total_placeholders_clean _ Hk), CompilerMore.placeholders_marks, Ht.
  unfold Object_keys, Object_values. rewrite !length_map.
  change (placeholders nl) with 0.
  change (placeholders "            INSERT INTO ") with 0.
  change (placeholders " (") with 0.
  change (placeholders ")") with 0.
  change (placeholders "            VALUES (") with 0.
  change (placeholders "        ") with 0.
  lia.
Qed.

(** X17: The [UPDATE] that [update] builds has as many placeholders as
    parameters, provided the table name, the keys of [data] and the keys
    of the condition bring no [?] of their own. *)
Theorem update_statement_balanced (table : string) (w data : JSObject)
  (r : Compiler.WhereClause) :
  clean table = true ->
  forallb clean (Object_keys data) = true ->
  no_placeholder_in_keys w = true ->
  Compiler.buildWhereClause w = Ok r ->
  placeholders
    ("UPDATE " +:+ table +:+ " SET " +:+
     join ", " (map (fun key => key +:+ " = ?") (Object_keys data)) +:+ " " +:+
     Compiler.clause r) =
  length (Object_values data ++ Compiler.wparams r).
Proof.
  intros Ht Hk Hw Hr. apply Nat.eqb_eq in Ht.
  rewrite !placeholders_app.
  rewrite (placeholders_join ", ") by reflexivity.
  rewrite (CompilerMore.placeholders_clean_names _ " = ?" Hk).
  rewrite (CompilerMore.compiled_clause_balanced w r Hw Hr), Ht.
  rewrite length_app. unfold Object_keys, Object_values. rewrite !length_map.
  change (placeholders "UPDATE ") with 0.
  change (placeholders " SET ") with 0.
  change (placeholders " = ?") with 1.
  change (placeholders " ") with 0.
  lia.
Qed.

End Statements.

(** ** More on [create] *)

Section CreateMore.

Context {W : Type}.
Variable drv : Driver W.

Lemma set_prop_absent (o : JSObject) (k : string) (v : JSValue) :
  existsb (String.eqb k) (Object_keys o) = false ->
  set_prop o k v = o ++ [(k, v)] /\ get_prop o k = JUndefined.
Proof.
  induction o as [|[k0 v0] o IH]; simpl; intros H; [split; reflexivity|].
  apply orb_false_elim in H as [Hk Hrest].
  rewrite String.eqb_sym in Hk. rewrite Hk.
  destruct (IH Hrest) as [Hs Hg]. rewrite Hs, Hg. split; reflexivity.
Qed.

Lemma read_by_id_query (table : string) :
  ("SELECT * FROM " +:+ table +:+ " " +:+ "WHERE id = ?") +:+ " LIMIT 1" =
  "SELECT * FROM " +:+ table +:+ " WHERE id = ? LIMIT 1".
Proof. rewrite !CompilerMore.append_assoc. reflexivity. Qed.

(** X18: [create] on an object without an [id] property: the generated
    identifier becomes the object's last property, the [INSERT] lists the
    object's columns in their order followed by [id], with the values
    followed by the identifier as parameters, the row is then read back
    by that identifier, and the identifier is returned. *)
Theorem create_without_id (s : State) (db : Handle) (table : string)
  (data : Ref) (d : JSObject) (u : string) (w1 w2 w3 : W) (rr : RunResult)
  (row : JSValue) :
  let insert := insert_query table (Object_keys d ++ ["id"]) in
  let values := Object_values d ++ [JStr u] in
  let read := "SELECT * FROM " +:+ table +:+ " WHERE id = ? LIMIT 1" in
  this_db s = Some db ->
  heap s !! data = Some d ->
  existsb (String.eqb "id") (Object_keys d) = false ->
  uuid_v4 drv (world s) = (u, w1) ->
  db_run drv db insert values w1 = (Ok rr, w2) ->
  db_get drv db read [JStr u] w2 = (Ok row, w3) ->
  truthy row = true ->
  fst (create drv table data s) = Ok (JStr u) /\
  heap (snd (create drv table data s)) !! data = Some (d ++ [("id", JStr u)]) /\
  issued (snd (create drv table data s)) =
    issued s ++ [mkStmt MRun insert values; mkStmt MGet read [JStr u]].
Proof.
  intros insert values read Hdb Hheap Hno Hu Hrun Hget Hrow.
  destruct (set_prop_absent d "id" (JStr u) Hno) as [Hset Hundef].
  assert (Hres : resolve_id drv d (world s) = (d ++ [("id", JStr u)], w1)).
  { unfold resolve_id. rewrite Hundef, Hu, Hset. reflexivity. }
  assert (Hid : get_prop (d ++ [("id", JStr u)]) "id" = JStr u).
  { rewrite <- Hset. apply get_set_prop. }
  assert (Hkeys : map fst (d ++ [("id", JStr u)]) = Object_keys d ++ ["id"]).
  { unfold Object_keys. rewrite map_app. reflexivity. }
  assert (Hvals : map snd (d ++ [("id", JStr u)]) = values).
  { unfold values, Object_values. rewrite map_app. reflexivity. }
  destruct (create_try_steps drv s db table data d (d ++ [("id", JStr u)])
              w1 w2 w3 rr (Compiler.mkWhere "WHERE id = ?" [JStr u]) row
              Hdb Hheap Hres)
    as (s' & Htry & Hh & _ & Hissued).
  - rewrite Hkeys, Hvals. exact Hrun.
  - rewrite Hid. reflexivity.
  - cbn [Compiler.clause Compiler.wparams]. rewrite read_by_id_query. exact Hget.
  - rewrite Hrow, Hid in Htry.
    change (create drv table data s)
      with (invoke drv (CallCreate table data) s).
    rewrite (invoke_connected drv (CallCreate table data) s db eq_refl Hdb).
    rewrite (try_catch_ok _ _ s s' _ Htry). simpl.
    split; [reflexivity|]. split; [exact Hh|].
    rewrite Hissued, Hkeys, Hvals.
    cbn [Compiler.clause Compiler.wparams]. rewrite read_by_id_query.
    reflexivity.
Qed.

(** X19: When the [INSERT] is rejected, [create] rejects with the driver's
    message behind its prefix and reads nothing back; the identifier it
    generated stays in the caller's object all the same. *)
Theorem create_insert_failure_keeps_id (s : State) (db : Handle)
  (table : string) (data : Ref) (d d' : JSObject) (w1 w2 : W) (e : Thrown) :
  let insert := insert_query table (Object_keys d') in
  this_db s = Some db ->
  heap s !! data = Some d ->
  resolve_id drv d (world s) = (d', w1) ->
  db_run drv db insert (Object_values d') w1 = (Throw e, w2) ->
  fst (create drv table data s) =
    Throw (DatabaseError ("Failed to create record: " +:+ error_message e)) /\
  heap (snd (create drv table data s)) !! data = Some d' /\
  issued (snd (create drv table data s)) =
    issued s ++ [mkStmt MRun insert (Object_values d')].
Proof.
  intros insert Hdb Hheap Hres Hrun. subst insert.
  change (create drv table data s) with (invoke drv (CallCreate table data) s).
  rewrite (invoke_connected drv (CallCreate table data) s db eq_refl Hdb).
  unfold resolve_id in Hres. simpl.
  destruct (truthy (get_prop d "id")) eqn:Hid.
  - injection Hres as <- <-.
    unfold try_catch, create_try, bind, deref. rewrite Hheap, Hid. simpl.
    rewrite Hheap. unfold call_run. rewrite Hrun. simpl.
    repeat split. exact Hheap.
  - destruct (uuid_v4 drv (world s)) as [u wu] eqn:Hu.
    injection Hres as <- <-.
    unfold try_catch, create_try, bind, deref. rewrite Hheap, Hid. simpl.
    unfold call_uuid, assign. rewrite Hu. simpl. rewrite Hheap. simpl.
    rewrite lookup_insert_eq. unfold call_run. simpl. rewrite Hrun. simpl.
    repeat split. apply lookup_insert_eq.
Qed.

End CreateMore.

(** ** The further properties on concrete runs *)

Module MoreRuns.

Lemma data_operations_keep_connection_witness :
  let drv := broken_driver in
  let c := CallCreate "users" 0 in
  let s := connected_client zero_id_heap in
  this_db (snd (invoke drv c s)) = this_db s /\
  config_database (snd (invoke drv c s)) = config_database s.
Proof.
  intros drv c s. apply (data_operations_keep_connection drv c s). reflexivity.
Defined.

Lemma create_writes_only_id_witness :
  let drv := stub_driver (JNum 1) (JObj [("id", JStr "uuid-0")]) [] in
  let s := connected_client zero_id_heap in
  field_at 0 "name" (snd (create drv "users" 0 s)) = field_at 0 "name" s.
Proof.
  intros drv s. apply (create_writes_only_id drv s "users" 0 0 "name").
  right. discriminate.
Defined.

Lemma connect_failure_is_wrapped_witness :
  let s := connected_client ∅ in
  connect broken_driver s =
  (Throw (DatabaseError
            "Failed to connect to database: SQLITE_CANTOPEN: unable to open database file"),
   set_world 0 s).
Proof.
  intros s.
  apply (connect_failure_is_wrapped broken_driver s
           (ErrorObject "Error" "SQLITE_CANTOPEN: unable to open database file") 0).
  reflexivity.
Defined.

Lemma close_twice_is_close_once_witness :
  let drv := stub_driver (JNum 1) JUndefined [] in
  close drv (fresh_client ∅) = (Ok JUndefined, fresh_client ∅).
Proof.
  intros drv.
  apply (close_twice_is_close_once drv (connected_client ∅) (fresh_client ∅)
           JUndefined).
  reflexivity.
Defined.

Lemma close_failure_keeps_connection_witness :
  let s := connected_client ∅ in
  close broken_driver s =
    (Throw (ErrorObject "Error" "SQLITE_BUSY: unable to close"), set_world 0 s) /\
  this_db (snd (close broken_driver s)) = Some 1.
Proof.
  intros s.
  apply (close_failure_keeps_connection broken_driver s 1
           (ErrorObject "Error" "SQLITE_BUSY: unable to close") 0);
    reflexivity.
Defined.

Lemma find_statement_witness :
  let rows := [JObj [("id", JStr "a"); ("age", JNum 35)]] in
  let drv := stub_driver (JNum 1) JUndefined rows in
  let s := connected_client ∅ in
  let options :=
    mkOptions (Some [("age", JObj [("gt", JNum 28)])]) (Some (mkNumber "0"))
      (Some (mkNumber "1"))
      (Some "age DESC") in
  find drv "users" options s =
  (Ok (JArr rows),
   set_world 0
     (record
        (mkStmt MAll
           "SELECT * FROM users WHERE age > ? ORDER BY age DESC LIMIT 0 OFFSET 1"
           [JNum 28]) s)).
Proof.
  intros rows drv s options.
  apply (find_statement drv s 1 "users" options
           (Compiler.mkWhere "WHERE age > ?" [JNum 28]) rows 0);
    reflexivity.
Defined.

Lemma findOne_statement_witness :
  let drv := stub_driver (JNum 1) JUndefined [] in
  let s := connected_client ∅ in
  let options :=
    mkOptions (Some [("id", JStr "non-existent")]) (Some (mkNumber "5"))
      (Some (mkNumber "2.5")) None in
  findOne drv "users" options s =
  (Ok JNull,
   set_world 0
     (record
        (mkStmt MGet "SELECT * FROM users WHERE id = ? LIMIT 1"
           [JStr "non-existent"]) s)).
Proof.
  intros drv s options.
  apply (findOne_statement drv s 1 "users" options
           (Compiler.mkWhere "WHERE id = ?" [JStr "non-existent"]) JUndefined 0);
    reflexivity.
Defined.

Lemma findOne_null_or_row_witness :
  JNull = JNull \/ truthy JNull = true.
Proof.
  apply (findOne_null_or_row (stub_driver (JNum 1) (JNum 0) [])
           (connected_client ∅)
           (set_world 0
              (record (mkStmt MGet "SELECT * FROM users  LIMIT 1" [])
                 (connected_client ∅)))
           "users" no_options JNull).
  reflexivity.
Defined.

Lemma delete_statement_and_count_witness :
  let drv := stub_driver (JNum 0) JUndefined [] in
  let s := connected_client ∅ in
  delete drv "users" [("id", JStr "non-existent")] s =
  (Ok (JNum 0),
   set_world 0
     (record
        (mkStmt MRun "DELETE FROM users WHERE id = ?" [JStr "non-existent"]) s)).
Proof.
  intros drv s.
  apply (delete_statement_and_count drv s 1 "users"
           [("id", JStr "non-existent")]
           (Compiler.mkWhere "WHERE id = ?" [JStr "non-existent"]) 0 0);
    try reflexivity.
  discriminate.
Defined.

Lemma createTable_statement_witness :
  let drv := stub_driver (JNum 0) JUndefined [] in
  let s := connected_client ∅ in
  createTable drv "users" [("id", "TEXT PRIMARY KEY"); ("age", "INTEGER")] s =
  (Ok (JArr []),
   set_world 0
     (record
        (mkStmt MRun
           "CREATE TABLE IF NOT EXISTS users (id TEXT PRIMARY KEY, age INTEGER)"
           []) s)).
Proof.
  intros drv s.
  apply (createTable_statement drv s 1 "users"
           [("id", "TEXT PRIMARY KEY"); ("age", "INTEGER")]
           (Ok (mkRun (JNum 0))) 0);
    reflexivity.
Defined.

Lemma insert_statement_balanced_witness :
  let d := [("name", JStr "A"); ("age", JNum 30); ("id", JStr "k")] in
  placeholders (insert_query "users" (Object_keys d)) = length (Object_values d).
Proof.
  intros d. apply (insert_statement_balanced "users" d); reflexivity.
Defined.

Lemma update_statement_balanced_witness :
  placeholders
    ("UPDATE " +:+ "users" +:+ " SET " +:+
     join ", " (map (fun key => key +:+ " = ?")
                  (Object_keys [("age", JNum 31); ("name", JStr "B")])) +:+
     " " +:+ "WHERE id = ?") =
  length (Object_values [("age", JNum 31); ("name", JStr "B")] ++ [JStr "k"]).
Proof.
  apply (update_statement_balanced "users" [("id", JStr "k")]
           [("age", JNum 31); ("name", JStr "B")]
           (Compiler.mkWhere "WHERE id = ?" [JStr "k"]));
    reflexivity.
Defined.

Lemma create_without_id_witness :
  let drv := stub_driver (JNum 1) (JObj [("id", JStr "uuid-0")]) [] in
  let s := connected_client {[ 0 := [("name", JStr "A"); ("age", JNum 30)] ]} in
  let d := [("name", JStr "A"); ("age", JNum 30)] in
  let insert := insert_query "users" (Object_keys d ++ ["id"]) in
  let values := Object_values d ++ [JStr "uuid-0"] in
  let read := "SELECT * FROM " +:+ "users" +:+ " WHERE id = ? LIMIT 1" in
  fst (create drv "users" 0 s) = Ok (JStr "uuid-0") /\
  heap (snd (create drv "users" 0 s)) !! 0 = Some (d ++ [("id", JStr "uuid-0")]) /\
  issued (snd (create drv "users" 0 s)) =
    issued s ++ [mkStmt MRun insert values; mkStmt MGet read [JStr "uuid-0"]].
Proof.
  intros drv s d insert values read.
  apply (create_without_id drv s 1 "users" 0 d "uuid-0" 1 1 1
           (mkRun (JNum 1)) (JObj [("id", JStr "uuid-0")]));
    reflexivity.
Defined.

Lemma create_insert_failure_keeps_id_witness :
  let s := connected_client {[ 0 := [("email", JStr "a@x.com")] ]} in
  let d' := [("email", JStr "a@x.com"); ("id", JStr "uuid-0")] in
  fst (create broken_driver "users" 0 s) =
    Throw (DatabaseError
             ("Failed to create record: " +:+
              error_message
                (ErrorObject "Error"
                   "SQLITE_CONSTRAINT: UNIQUE constraint failed: users.email"))) /\
  heap (snd (create broken_driver "users" 0 s)) !! 0 = Some d' /\
  issued (snd (create broken_driver "users" 0 s)) =
    issued s ++
    [mkStmt MRun (insert_query "users" (Object_keys d')) (Object_values d')].
Proof.
  intros s d'.
  apply (create_insert_failure_keeps_id broken_driver s 1 "users" 0
           [("email", JStr "a@x.com")] d' 1 1
           (ErrorObject "Error"
              "SQLITE_CONSTRAINT: UNIQUE constraint failed: users.email"));
    reflexivity.
Defined.

End MoreRuns.
